(** * Profitability analysis of Orca whirlpool positions: a shallow embedding

    This development embeds the instruction decoder ([decode-transaction.ts]),
    the position ledger ([analyzeInstructions] in [analyze-position.ts]) and
    the summary builder ([analyzePosition], [analyzePositions],
    [getOutstandingBalances]) and proves properties of them.

    Modelling conventions.
    - [Decimal] values (decimal.js) are rationals [Q]; equalities of values
      are stated with [Qeq] ([==]).  Decimal.js rounds to 20 significant
      digits; this rounding is not modelled, and neither are the results
      [Infinity]/[NaN] of a division by zero (where [Q] gives [0]).
    - [BN] integers are [Z].
    - Public keys and mints are their base58 strings.
    - A [ReadonlyMap] that is only read is its [get] function, [k -> option v].
    - A [tiny-invariant] failure (an exception) is an [Err] of the small
      error monad [res]; the message is the invariant's message. *)

From Stdlib Require Import ZArith QArith String Ascii List Bool Lia Permutation Sorted.
Import ListNotations.
Open Scope string_scope.
Set Warnings "-register-all".

(** ** The error monad of [invariant] *)

Inductive res (A : Type) : Type :=
| Ok (a : A)
| Err (msg : string).
Arguments Ok {A} a.
Arguments Err {A} msg.

Definition res_bind {A B : Type} (c : res A) (k : A -> res B) : res B :=
  match c with
  | Ok a => k a
  | Err m => Err m
  end.

Notation "x <- c ;; k" := (res_bind c (fun x => k))
  (at level 61, c at next level, right associativity).

(** [invariant(cond, msg)] *)
Definition invariant (cond : bool) (msg : string) : res unit :=
  if cond then Ok tt else Err msg.

(** [const x = m.get(k); invariant(x, msg)] *)
Definition require {A : Type} (o : option A) (msg : string) : res A :=
  match o with
  | Some a => Ok a
  | None => Err msg
  end.

(** ** JavaScript values seen by the decoder *)

Inductive jsval : Type :=
| JUndefined
| JNull
| JNum (n : Z)
| JStr (s : string)
| JBN (n : Z)
| JObj (fields : list (string * jsval)).

(** [key in obj] and [obj[key]] on an object given by its fields. *)
Fixpoint field (k : string) (fs : list (string * jsval)) : option jsval :=
  match fs with
  | [] => None
  | (k', v) :: fs' => if String.eqb k k' then Some v else field k fs'
  end.

(** [v?.key]: [undefined] unless [v] is an object holding [key]. *)
Definition optField (k : string) (v : jsval) : option jsval :=
  match v with
  | JObj fs => field k fs
  | _ => None
  end.

(** ** Constants ([globals.ts] and [@solana/spl-token]) *)

Definition NATIVE_MINT : string := "So11111111111111111111111111111111111111112".
Definition TOKEN_PROGRAM_ID : string := "TokenkegQfeZyiNwAJbNbGKPFXCWuBvf9Ss623VQ5DA".
Definition WHIRLPOOL_PROGRAM_ID : string := "whirLbMiicVdio4qvUfM5KAg6Ct8VwpYzGff3uctyCc".

Definition PAYABLE_RENT_LAMPORTS : Z := 2394240 + 1461600 + 2039280 + 15616720.
Definition PAYABLE_RENT_LAMPORTS_WITHOUT_METADATA : Z := 2394240 + 1461600 + 2039280.
Definition RECLAIMABLE_RENT_LAMPORTS : Z := 2394240 + 2039280.
Definition CLOSE_TRANSACTION_LAMPORTS : Z := 10000.

(** ** Data model *)

(** [Token] of [@orca-so/token-sdk]: the fields the code reads. *)
Record Token := { mint : string; decimals : Z }.

(** [WhirlpoolData]: the fields the code reads ([Whirlpool.getData()]
    returns it; a [Whirlpool] is modelled by its data). *)
Record WhirlpoolData := {
  tokenMintA : string;
  tokenMintB : string;
  rewardInfos : list string;  (** the [mint] of each reward info *)
  sqrtPrice : Z;
  tickCurrentIndex : Z
}.

(** The two shapes of a web3 instruction: [ParsedInstruction]
    ([program], [parsed]) and [PartiallyDecodedInstruction]
    ([accounts], [data]). *)
Inductive RawInstruction : Type :=
| ParsedInstruction (program : string) (parsed : jsval)
| PartiallyDecodedInstruction (accounts : list string) (data : string).

(** [GatheredInstruction] of [gather-instructions.ts]. *)
Record GatheredInstruction := {
  signature : string;
  blockTime : Z;
  transactionFee : Z;
  tokenMints : list (string * string);
  programId : string;
  raw : RawInstruction
}.

Record OpenPositionInstruction := {
  op_whirlpool : string;
  op_position : string;
  op_positionMint : string;
  op_owner : string;
  op_tickUpperIndex : Z;
  op_tickLowerIndex : Z;
  op_rentFee : Z
}.

Record IncreaseLiquidityInstruction := {
  il_whirlpool : string;
  il_position : string;
  liquidityIn : Z;
  il_tokenAMint : string;
  il_tokenBMint : string;
  tokenAIn : Z;
  tokenBIn : Z
}.

Record DecreaseLiquidityInstruction := {
  dl_whirlpool : string;
  dl_position : string;
  liquidityOut : Z;
  dl_tokenAMint : string;
  dl_tokenBMint : string;
  tokenAOut : Z;
  tokenBOut : Z
}.

Record CollectFeesInstruction := {
  cf_whirlpool : string;
  cf_position : string;
  cf_tokenAMint : string;
  cf_tokenBMint : string;
  tokenAFee : Z;
  tokenBFee : Z
}.

Record CollectRewardInstruction := {
  cr_whirlpool : string;
  cr_position : string;
  rewardIndex : Z;
  rewardMint : string;
  rewardAmount : Z
}.

Record ClosePositionInstruction := {
  cp_position : string;
  reclaimedRent : Z
}.

(** [InstructionUnion]: one constructor per [type] tag. *)
Inductive InstructionUnion : Type :=
| openPosition (o : OpenPositionInstruction)
| increaseLiquidity (i : IncreaseLiquidityInstruction)
| decreaseLiquidity (d : DecreaseLiquidityInstruction)
| collectFees (c : CollectFeesInstruction)
| collectReward (c : CollectRewardInstruction)
| closePosition (c : ClosePositionInstruction).

(** [DecodedInstruction = InstructionUnion & GatheredInstruction]. *)
Record DecodedInstruction := {
  ix : InstructionUnion;
  gathered : GatheredInstruction
}.

Definition ixBlockTime (d : DecodedInstruction) : Z := blockTime (gathered d).

Definition ixPosition (u : InstructionUnion) : string :=
  match u with
  | openPosition o => op_position o
  | increaseLiquidity i => il_position i
  | decreaseLiquidity d => dl_position d
  | collectFees c => cf_position c
  | collectReward c => cr_position c
  | closePosition c => cp_position c
  end.

Definition isOpenPosition (d : DecodedInstruction) : bool :=
  match ix d with openPosition _ => true | _ => false end.

Definition isClosePosition (d : DecodedInstruction) : bool :=
  match ix d with closePosition _ => true | _ => false end.

(** ** Prices ([price-fetcher.ts]) *)

(** A key of the price map: [priceKey(mint)] is the mint itself (the
    current price), [priceKey(mint, time)] is [`${mint}:${time}`]. *)
Inductive PriceKey : Type :=
| KeyCurrent (m : string)
| KeyAt (m : string) (time : Z).

(** [priceKey(mint, time)]: [if (!time) return mint.toString();] *)
Definition priceKey (m : string) (time : Z) : PriceKey :=
  if Z.eqb time 0 then KeyCurrent m else KeyAt m time.

(** [convertToUiAmount(amount, decimals)] *)
Definition convertToUiAmount (amount : Z) (dec : Z) : Q :=
  inject_Z amount / inject_Z (10 ^ dec).

(** [Decimal.max(a, b)] *)
Definition Decimal_max (a b : Q) : Q := if Qle_bool a b then b else a.

(** ** [instructions.sort((a, b) => a.blockTime - b.blockTime)]

    [Array.prototype.sort] is stable; the stable sort by [blockTime] is the
    insertion sort that places each element after the ones with an equal
    key.  The sort is in place: the caller's array holds the result. *)
Fixpoint insertByTime (x : DecodedInstruction) (l : list DecodedInstruction)
  : list DecodedInstruction :=
  match l with
  | [] => [x]
  | y :: l' =>
      if Z.ltb (ixBlockTime x) (ixBlockTime y) then x :: y :: l'
      else y :: insertByTime x l'
  end.

Definition sortByBlockTime (l : list DecodedInstruction) : list DecodedInstruction :=
  fold_left (fun acc x => insertByTime x acc) l [].

(** [transactionCosts.set(signature, fee)] on a JS [Map]: an existing key
    keeps its position and takes the new value. *)
Fixpoint mapSet (k : string) (v : Q) (m : list (string * Q)) : list (string * Q) :=
  match m with
  | [] => [(k, v)]
  | (k', v') :: m' => if String.eqb k k' then (k, v) :: m' else (k', v') :: mapSet k v m'
  end.

(** ** The position ledger: [analyzeInstructions] *)

Module Ledger.

(** The [let] variables of the loop of [analyzeInstructions]. *)
Record LedgerState := {
  rollingTokenAAmount : Q;
  rollingTokenBAmount : Q;
  totalLiquidity : Z;
  transactionCosts : list (string * Q);
  depositedValue : Q;
  withdrawnValue : Q;
  forgoneValue : Q;
  positionSize : Q;
  collectedFeesValue : Q;
  collectedRewardsValue : Q;
  paidRent : Q
}.

Definition initState : LedgerState := {|
  rollingTokenAAmount := 0; rollingTokenBAmount := 0; totalLiquidity := 0;
  transactionCosts := [];
  depositedValue := 0; withdrawnValue := 0; forgoneValue := 0; positionSize := 0;
  collectedFeesValue := 0; collectedRewardsValue := 0; paidRent := 0 |}.

Section Pass.

Variable tokenMap : string -> option Token.
Variable priceMap : PriceKey -> option Q.
Variables solToken tokenA tokenB : Token.

(** The withdrawn fraction of a [decreaseLiquidity] event, as the code
    computes it: [liquidityOut / totalLiquidity].  At a total liquidity of
    0, Q's division gives 0 where decimal.js gives Infinity (or NaN). *)
Definition withdrawnPercentage (st : LedgerState) (d : DecreaseLiquidityInstruction) : Q :=
  inject_Z (liquidityOut d) / inject_Z (totalLiquidity st).

(** The body of the loop once the three prices at the event's time are
    known (lines 352-444). *)
Definition applyEvent (st0 : LedgerState) (instruction : DecodedInstruction)
    (solPrice tokenAPrice tokenBPrice : Q) : res LedgerState :=
  let t := ixBlockTime instruction in
  let transactionFee :=
    convertToUiAmount (transactionFee (gathered instruction)) (decimals solToken) * solPrice in
  let costs := mapSet (signature (gathered instruction)) transactionFee (transactionCosts st0) in
  let st := {|
    rollingTokenAAmount := rollingTokenAAmount st0;
    rollingTokenBAmount := rollingTokenBAmount st0;
    totalLiquidity := totalLiquidity st0;
    transactionCosts := costs;
    depositedValue := depositedValue st0;
    withdrawnValue := withdrawnValue st0;
    forgoneValue := forgoneValue st0;
    positionSize := positionSize st0;
    collectedFeesValue := collectedFeesValue st0;
    collectedRewardsValue := collectedRewardsValue st0;
    paidRent := paidRent st0 |} in
  match ix instruction with
  | openPosition o =>
      let rentFee := convertToUiAmount (op_rentFee o) (decimals solToken) * solPrice in
      Ok {| rollingTokenAAmount := rollingTokenAAmount st;
            rollingTokenBAmount := rollingTokenBAmount st;
            totalLiquidity := totalLiquidity st;
            transactionCosts := transactionCosts st;
            depositedValue := depositedValue st;
            withdrawnValue := withdrawnValue st;
            forgoneValue := forgoneValue st;
            positionSize := positionSize st;
            collectedFeesValue := collectedFeesValue st;
            collectedRewardsValue := collectedRewardsValue st;
            paidRent := paidRent st + rentFee |}
  | increaseLiquidity i =>
      let tokenAAmount := convertToUiAmount (tokenAIn i) (decimals tokenA) in
      let rollA := rollingTokenAAmount st + tokenAAmount in
      let tokenAInValue := tokenAAmount * tokenAPrice in
      let tokenBAmount := convertToUiAmount (tokenBIn i) (decimals tokenB) in
      let rollB := rollingTokenBAmount st + tokenBAmount in
      let tokenBInValue := tokenBAmount * tokenBPrice in
      let deposited := depositedValue st + tokenAInValue + tokenBInValue in
      Ok {| rollingTokenAAmount := rollA;
            rollingTokenBAmount := rollB;
            totalLiquidity := totalLiquidity st + liquidityIn i;
            transactionCosts := transactionCosts st;
            depositedValue := deposited;
            withdrawnValue := withdrawnValue st;
            forgoneValue := forgoneValue st;
            positionSize := Decimal_max (positionSize st) (deposited - withdrawnValue st);
            collectedFeesValue := collectedFeesValue st;
            collectedRewardsValue := collectedRewardsValue st;
            paidRent := paidRent st |}
  | decreaseLiquidity d =>
      let tokenAOutValue := convertToUiAmount (tokenAOut d) (decimals tokenA) * tokenAPrice in
      let tokenBOutValue := convertToUiAmount (tokenBOut d) (decimals tokenB) * tokenBPrice in
      let withdrawn := withdrawnValue st + tokenAOutValue + tokenBOutValue in
      let pct := withdrawnPercentage st d in
      let partialTokenAAmount := rollingTokenAAmount st * pct in
      let partialTokenBAmount := rollingTokenBAmount st * pct in
      let partialForgoneValue :=
        0 + partialTokenAAmount * tokenAPrice + partialTokenBAmount * tokenBPrice in
      Ok {| rollingTokenAAmount := rollingTokenAAmount st - partialTokenAAmount;
            rollingTokenBAmount := rollingTokenBAmount st - partialTokenBAmount;
            totalLiquidity := totalLiquidity st - liquidityOut d;
            transactionCosts := transactionCosts st;
            depositedValue := depositedValue st;
            withdrawnValue := withdrawn;
            forgoneValue := forgoneValue st + partialForgoneValue;
            positionSize := positionSize st;
            collectedFeesValue := collectedFeesValue st;
            collectedRewardsValue := collectedRewardsValue st;
            paidRent := paidRent st |}
  | collectFees c =>
      let tokenAFeeValue := convertToUiAmount (tokenAFee c) (decimals tokenA) * tokenAPrice in
      let tokenBFeeValue := convertToUiAmount (tokenBFee c) (decimals tokenB) * tokenBPrice in
      Ok {| rollingTokenAAmount := rollingTokenAAmount st;
            rollingTokenBAmount := rollingTokenBAmount st;
            totalLiquidity := totalLiquidity st;
            transactionCosts := transactionCosts st;
            depositedValue := depositedValue st;
            withdrawnValue := withdrawnValue st;
            forgoneValue := forgoneValue st;
            positionSize := positionSize st;
            collectedFeesValue := collectedFeesValue st + tokenAFeeValue + tokenBFeeValue;
            collectedRewardsValue := collectedRewardsValue st;
            paidRent := paidRent st |}
  | collectReward c =>
      rewardToken <- require (tokenMap (rewardMint c)) "Reward token not found";;
      rewardTokenPrice <- require (priceMap (priceKey (mint rewardToken) t))
                                  "Reward token price not found";;
      let rewardValue :=
        convertToUiAmount (rewardAmount c) (decimals rewardToken) * rewardTokenPrice in
      Ok {| rollingTokenAAmount := rollingTokenAAmount st;
            rollingTokenBAmount := rollingTokenBAmount st;
            totalLiquidity := totalLiquidity st;
            transactionCosts := transactionCosts st;
            depositedValue := depositedValue st;
            withdrawnValue := withdrawnValue st;
            forgoneValue := forgoneValue st;
            positionSize := positionSize st;
            collectedFeesValue := collectedFeesValue st;
            collectedRewardsValue := collectedRewardsValue st + rewardValue;
            paidRent := paidRent st |}
  | closePosition c =>
      let reclaimed := convertToUiAmount (reclaimedRent c) (decimals solToken) * solPrice in
      Ok {| rollingTokenAAmount := rollingTokenAAmount st;
            rollingTokenBAmount := rollingTokenBAmount st;
            totalLiquidity := totalLiquidity st;
            transactionCosts := transactionCosts st;
            depositedValue := depositedValue st;
            withdrawnValue := withdrawnValue st;
            forgoneValue := forgoneValue st;
            positionSize := positionSize st;
            collectedFeesValue := collectedFeesValue st;
            collectedRewardsValue := collectedRewardsValue st;
            paidRent := paidRent st - reclaimed |}
  end.

(** One iteration of [for (const instruction of sortedInstructions)]
    (lines 345-444). *)
Definition step (st0 : LedgerState) (instruction : DecodedInstruction) : res LedgerState :=
  let t := ixBlockTime instruction in
  solPrice <- require (priceMap (priceKey NATIVE_MINT t)) "SOL price not found";;
  tokenAPrice <- require (priceMap (priceKey (mint tokenA) t)) "Token A price not found";;
  tokenBPrice <- require (priceMap (priceKey (mint tokenB) t)) "Token B price not found";;
  applyEvent st0 instruction solPrice tokenAPrice tokenBPrice.

(** The whole [for] loop. *)
Fixpoint runInstructions (st : LedgerState) (l : list DecodedInstruction) : res LedgerState :=
  match l with
  | [] => Ok st
  | instruction :: l' => st' <- step st instruction;; runInstructions st' l'
  end.

End Pass.

(** The [Pick<PositionSummary, ...>] returned by [analyzeInstructions]. *)
Record Totals := {
  t_depositedValue : Q;
  t_withdrawnValue : Q;
  t_forgoneValue : Q;
  t_positionSize : Q;
  t_collectedFeesValue : Q;
  t_collectedRewardsValue : Q;
  t_paidRent : Q;
  t_transactionCost : Q
}.

(** The rolling state after the loop, before the remaining-balance
    adjustment (lines 321-445). *)
Definition ledgerLoop (instructions : list DecodedInstruction) (whirlpoolData : WhirlpoolData)
    (tokenMap : string -> option Token) (priceMap : PriceKey -> option Q)
  : res (Token * Token * LedgerState) :=
  let sortedInstructions := sortByBlockTime instructions in
  solToken <- require (tokenMap NATIVE_MINT) "SOL token not found";;
  tokenA <- require (tokenMap (tokenMintA whirlpoolData)) "Token A not found";;
  tokenB <- require (tokenMap (tokenMintB whirlpoolData)) "Token B not found";;
  st <- runInstructions tokenMap priceMap solToken tokenA tokenB initState sortedInstructions;;
  Ok (tokenA, tokenB, st).

(** [analyzeInstructions(instructions, whirlpool, tokenMap, priceMap)].
    The first component is the caller's [instructions] array after the
    call (sorted in place by the first statement); the second is the
    returned value or the error thrown. *)
Definition analyzeInstructions (instructions : list DecodedInstruction)
    (whirlpoolData : WhirlpoolData)
    (tokenMap : string -> option Token) (priceMap : PriceKey -> option Q)
  : list DecodedInstruction * res Totals :=
  (sortByBlockTime instructions,
   r <- ledgerLoop instructions whirlpoolData tokenMap priceMap;;
   let '(tokenA, tokenB, st) := r in
   currentTokenAPrice <- require (priceMap (KeyCurrent (mint tokenA)))
                                 "Current token A price not found";;
   currentTokenBPrice <- require (priceMap (KeyCurrent (mint tokenB)))
                                 "Current token B price not found";;
   let remainingForgoneValue :=
     0 + rollingTokenAAmount st * currentTokenAPrice
       + rollingTokenBAmount st * currentTokenBPrice in
   let transactionCost :=
     fold_left (fun acc fee => acc + snd fee) (transactionCosts st) 0 in
   Ok {| t_depositedValue := depositedValue st;
         t_withdrawnValue := withdrawnValue st;
         t_forgoneValue := forgoneValue st + remainingForgoneValue;
         t_positionSize := positionSize st;
         t_collectedFeesValue := collectedFeesValue st;
         t_collectedRewardsValue := collectedRewardsValue st;
         t_paidRent := paidRent st;
         t_transactionCost := transactionCost |}).

End Ledger.

(** ** The instruction decoder ([decode-transaction.ts]) *)

Module Decoder.

Local Open Scope Z_scope.

(** [new BN(str)] on a decimal string without whitespace: an optional [-]
    and the digits; any other character is rejected (bn.js asserts "Invalid
    character").  bn.js first deletes every match of [/\s+/]; this model
    does not, so it is meant for strings without whitespace (see
    [hasJsSpace]). *)
Fixpoint digitsValue (acc : Z) (s : string) : res Z :=
  match s with
  | EmptyString => Ok acc
  | String c s' =>
      let n := Z.of_nat (Ascii.nat_of_ascii c) - 48 in
      if andb (Z.leb 0 n) (Z.ltb n 10) then digitsValue (acc * 10 + n) s'
      else Err "Invalid character"
  end.

Definition bnOfString (s : string) : res Z :=
  match s with
  | String "-"%char s' => v <- digitsValue 0 s';; Ok (- v)
  | _ => digitsValue 0 s
  end.

(** The characters matched by the JS class [\s] among the code units
    0-255: tab, line feed, vertical tab, form feed, carriage return, space
    and no-break space. *)
Definition isJsSpace (c : ascii) : bool :=
  let n := Ascii.nat_of_ascii c in
  (Nat.leb 9 n && Nat.leb n 13) || Nat.eqb n 32 || Nat.eqb n 160.

Fixpoint hasJsSpace (s : string) : bool :=
  match s with
  | EmptyString => false
  | String c s' => isJsSpace c || hasJsSpace s'
  end.

(** [accounts[i]] for a (possibly negative) JS index. *)
Definition accountAt (accounts : list string) (i : Z) : option string :=
  if Z.ltb i 0 then None else nth_error accounts (Z.to_nat i).

(** [accounts.findIndex((account) => account.equals(key))] *)
Fixpoint findIndex (key : string) (accounts : list string) : Z :=
  match accounts with
  | [] => -1
  | a :: rest =>
      if String.eqb a key then 0
      else let r := findIndex key rest in if Z.ltb r 0 then -1 else r + 1
  end.

(** The test of [nextTokenTransferAmount]:
    ["parsed" in instruction && instruction.program === "spl-token"
     && instruction.parsed?.type === "transfer"]. *)
Definition isTokenTransfer (g : GatheredInstruction) : bool :=
  match raw g with
  | ParsedInstruction program parsed =>
      String.eqb program "spl-token" &&
      match optField "type" parsed with
      | Some (JStr ty) => String.eqb ty "transfer"
      | _ => false
      end
  | PartiallyDecodedInstruction _ _ => false
  end.

(** The invariants on a transfer's [parsed.info.amount], then
    [new BN(instruction.parsed.info.amount)]. *)
Definition transferAmount (g : GatheredInstruction) : res Z :=
  match raw g with
  | ParsedInstruction _ parsed =>
      match optField "info" parsed with
      | None => Err "Transfer instruction does not contain info"
      | Some (JObj info) =>
          match field "amount" info with
          | None => Err "Transfer info does not contain amount"
          | Some (JStr amount) => bnOfString amount
          | Some _ => Err "Reward amount is not a string"
          end
      | Some JNull => Err "TypeError: cannot use 'in' operator on null"
      | Some (JBN _) => Err "Transfer info does not contain amount"
      | Some _ => Err "Transfer info is not an object"
      end
  | PartiallyDecodedInstruction _ _ => Err "not a transfer"
  end.

(** [instruction.parsed.info.amount] of a parsed instruction, when it is a
    string. *)
Definition transferAmountString (g : GatheredInstruction) : option string :=
  match raw g with
  | ParsedInstruction _ parsed =>
      match optField "info" parsed with
      | Some (JObj info) =>
          match field "amount" info with
          | Some (JStr amount) => Some amount
          | _ => None
          end
      | _ => None
      end
  | PartiallyDecodedInstruction _ _ => None
  end.

(** The loop [for (let i = index + 1; i < instructions.length; i++)],
    with [i] the index of the head of [rest]. *)
Fixpoint scanTransfers (i : nat) (rest : list GatheredInstruction)
  : res (option (Z * nat)) :=
  match rest with
  | [] => Ok None
  | g :: rest' =>
      if isTokenTransfer g then (amount <- transferAmount g;; Ok (Some (amount, i)))
      else scanTransfers (S i) rest'
  end.

(** [nextTokenTransferAmount(index, instructions)]: [Some (amount, i)] for
    [[amount, i]], [None] for [[undefined, undefined]]. *)
Definition nextTokenTransferAmount (index : nat) (instructions : list GatheredInstruction)
  : res (option (Z * nat)) :=
  scanTransfers (S index) (skipn (S index) instructions).

(** [reduceTokenMintFromAccount(instructions[index], accounts[k])]; an
    undefined instruction or account throws a [TypeError]. *)
Definition reduceTokenMintFromAccount (instruction : option GatheredInstruction)
    (tokenAccount : option string) : res string :=
  match instruction, tokenAccount with
  | Some g, Some acct =>
      require (match find (fun p => String.eqb (fst p) acct) (tokenMints g) with
               | Some p => Some (snd p)
               | None => None
               end) "Could reduce mint from token account"
  | _, _ => Err "TypeError"
  end.

(** [const [x, next] = nextTokenTransferAmount(...); invariant(x, msg)] *)
Definition requireTransfer (r : res (option (Z * nat))) (msg : string) : res (Z * nat) :=
  o <- r;; require o msg.

(** The decoded instruction data: the fields of the borsh-decoded object. *)
Definition InstructionData := list (string * jsval).

Definition numberField (k : string) (data : InstructionData) (msg1 msg2 : string) : res Z :=
  match field k data with
  | None => Err msg1
  | Some (JNum n) => Ok n
  | Some _ => Err msg2
  end.

Definition bnField (k : string) (data : InstructionData) (msg1 msg2 : string) : res Z :=
  match field k data with
  | None => Err msg1
  | Some (JBN n) => Ok n
  | Some _ => Err msg2
  end.

Definition decodeOpenPosition (accounts : list string) (data : InstructionData) (name : string)
  : res OpenPositionInstruction :=
  let whirlpoolAccountIndex := findIndex TOKEN_PROGRAM_ID accounts - 1 in
  whirlpoolAccount <- require (accountAt accounts whirlpoolAccountIndex)
                              "Could not find whirlpool account for openPosition ix";;
  ownerAccount <- require (accountAt accounts 1) "Could not find owner account for openPosition ix";;
  positionAccount <- require (accountAt accounts 2)
                             "Could not find position account for openPosition ix";;
  positionMintAccount <- require (accountAt accounts 3)
                                 "Could not find position mint account for openPosition ix";;
  tickLowerIndex <- numberField "tickLowerIndex" data
                      "Instruction data does not contain tickLowerIndex"
                      "tickLowerIndex is not a number";;
  tickUpperIndex <- numberField "tickUpperIndex" data
                      "Instruction data does not contain tickUpperIndex"
                      "tickUpperIndex is not a number";;
  let rentFee := if String.eqb name "openPositionWithMetadata" then PAYABLE_RENT_LAMPORTS
                 else PAYABLE_RENT_LAMPORTS_WITHOUT_METADATA in
  Ok {| op_whirlpool := whirlpoolAccount;
        op_position := positionAccount;
        op_owner := ownerAccount;
        op_positionMint := positionMintAccount;
        op_tickUpperIndex := tickLowerIndex;
        op_tickLowerIndex := tickUpperIndex;
        op_rentFee := rentFee |}.

Definition decodeIncreaseLiquidity (accounts : list string) (data : InstructionData)
    (index : nat) (instructions : list GatheredInstruction) : res IncreaseLiquidityInstruction :=
  whirlpoolAccount <- require (accountAt accounts 0)
                              "Could not find whirlpool account for openPosition ix";;
  positionAccount <- require (accountAt accounts 3)
                             "Could not find position account for openPosition ix";;
  liquidityAmount <- bnField "liquidityAmount" data
                       "Instruction data does not contain liquidityAmount"
                       "liquidityAmount is not a number";;
  tokenAMint <- reduceTokenMintFromAccount (nth_error instructions index) (accountAt accounts 7);;
  tokenBMint <- reduceTokenMintFromAccount (nth_error instructions index) (accountAt accounts 8);;
  a <- requireTransfer (nextTokenTransferAmount index instructions)
         "Could not find reward amount for increaseLiquidity ix";;
  let '(tokenAIn, nextTokenTransferIndex) := a in
  b <- requireTransfer (nextTokenTransferAmount nextTokenTransferIndex instructions)
         "Could not find reward amount for increaseLiquidity ix";;
  let '(tokenBIn, _) := b in
  Ok {| il_whirlpool := whirlpoolAccount;
        il_position := positionAccount;
        liquidityIn := liquidityAmount;
        il_tokenAMint := tokenAMint;
        il_tokenBMint := tokenBMint;
        tokenAIn := tokenAIn;
        tokenBIn := tokenBIn |}.

Definition decodeDecreaseLiquidity (accounts : list string) (data : InstructionData)
    (index : nat) (instructions : list GatheredInstruction) : res DecreaseLiquidityInstruction :=
  whirlpoolAccount <- require (accountAt accounts 0)
                              "Could not find whirlpool account for decreaseLiquidity ix";;
  positionAccount <- require (accountAt accounts 3)
                             "Could not find position account for decreaseLiquidity ix";;
  liquidityAmount <- bnField "liquidityAmount" data
                       "Instruction data does not contain liquidityAmount"
                       "liquidityAmount is not a number";;
  tokenAMint <- reduceTokenMintFromAccount (nth_error instructions index) (accountAt accounts 7);;
  tokenBMint <- reduceTokenMintFromAccount (nth_error instructions index) (accountAt accounts 8);;
  a <- requireTransfer (nextTokenTransferAmount index instructions)
         "Could not find reward amount for decreaseLiquidity ix";;
  let '(tokenAOut, nextTokenTransferIndex) := a in
  b <- requireTransfer (nextTokenTransferAmount nextTokenTransferIndex instructions)
         "Could not find reward amount for decreaseLiquidity ix";;
  let '(tokenBOut, _) := b in
  Ok {| dl_whirlpool := whirlpoolAccount;
        dl_position := positionAccount;
        liquidityOut := liquidityAmount;
        dl_tokenAMint := tokenAMint;
        dl_tokenBMint := tokenBMint;
        tokenAOut := tokenAOut;
        tokenBOut := tokenBOut |}.

Definition decodeCollectFee (accounts : list string) (data : InstructionData)
    (index : nat) (instructions : list GatheredInstruction) : res CollectFeesInstruction :=
  whirlpoolAccount <- require (accountAt accounts 0)
                              "Could not find whirlpool account for collectFees ix";;
  positionAccount <- require (accountAt accounts 2)
                             "Could not find position account for collectFees ix";;
  tokenAMint <- reduceTokenMintFromAccount (nth_error instructions index) (accountAt accounts 5);;
  tokenBMint <- reduceTokenMintFromAccount (nth_error instructions index) (accountAt accounts 7);;
  a <- requireTransfer (nextTokenTransferAmount index instructions)
         "Could not find reward amount for collectFee ix";;
  let '(tokenAFee, nextTokenTransferIndex) := a in
  b <- requireTransfer (nextTokenTransferAmount nextTokenTransferIndex instructions)
         "Could not find reward amount for collectFee ix";;
  let '(tokenBFee, _) := b in
  Ok {| cf_whirlpool := whirlpoolAccount;
        cf_position := positionAccount;
        cf_tokenAMint := tokenAMint;
        cf_tokenBMint := tokenBMint;
        tokenAFee := tokenAFee;
        tokenBFee := tokenBFee |}.

Definition decodeCollectReward (accounts : list string) (data : InstructionData)
    (index : nat) (instructions : list GatheredInstruction) : res CollectRewardInstruction :=
  whirlpoolAccount <- require (accountAt accounts 0)
                              "Could not find whirlpool account for collectFees ix";;
  positionAccount <- require (accountAt accounts 2)
                             "Could not find position account for collectFees ix";;
  rewardIndex <- numberField "rewardIndex" data
                   "Instruction data does not contain liquidityAmount"
                   "liquidityAmount is not a number";;
  rewardMint <- reduceTokenMintFromAccount (nth_error instructions index) (accountAt accounts 5);;
  a <- requireTransfer (nextTokenTransferAmount index instructions)
         "Could not find reward amount for collectReward ix";;
  let '(rewardAmount, _) := a in
  Ok {| cr_whirlpool := whirlpoolAccount;
        cr_position := positionAccount;
        rewardIndex := rewardIndex;
        rewardMint := rewardMint;
        rewardAmount := rewardAmount |}.

Definition decodeClosePosition (accounts : list string) : res ClosePositionInstruction :=
  positionAccount <- require (accountAt accounts 2)
                             "Could not find position account for collectFees ix";;
  Ok {| cp_position := positionAccount; reclaimedRent := RECLAIMABLE_RENT_LAMPORTS |}.

(** [decodeInstructionMap[name](accounts, data, name, index, instructions)] *)
Definition decodeInstructionMap (name : string) (accounts : list string) (data : InstructionData)
    (index : nat) (instructions : list GatheredInstruction) : option (res InstructionUnion) :=
  let wrap {A} (f : A -> InstructionUnion) (r : res A) := Some (x <- r;; Ok (f x)) in
  if String.eqb name "openPosition" then wrap openPosition (decodeOpenPosition accounts data name)
  else if String.eqb name "openPositionWithMetadata" then
    wrap openPosition (decodeOpenPosition accounts data name)
  else if String.eqb name "increaseLiquidity" then
    wrap increaseLiquidity (decodeIncreaseLiquidity accounts data index instructions)
  else if String.eqb name "decreaseLiquidity" then
    wrap decreaseLiquidity (decodeDecreaseLiquidity accounts data index instructions)
  else if String.eqb name "collectFees" then
    wrap collectFees (decodeCollectFee accounts data index instructions)
  else if String.eqb name "collectReward" then
    wrap collectReward (decodeCollectReward accounts data index instructions)
  else if String.eqb name "closePosition" then wrap closePosition (decodeClosePosition accounts)
  else None.

Section Transaction.

(** [borshCoder.instruction.decode(data, "base58")] of the whirlpool IDL
    (anchor): the instruction's name and decoded data, or [null]. *)
Variable borshDecode : string -> option (string * InstructionData).

(** [decodeTransaction(index, instructions)]: the handler's fields, then
    [...instruction] (which has none of the handler's field names). *)
Definition decodeTransaction (index : nat) (instructions : list GatheredInstruction)
  : res DecodedInstruction :=
  instruction <- require (nth_error instructions index) "TypeError";;
  _ <- invariant (String.eqb (programId instruction) WHIRLPOOL_PROGRAM_ID)
                 "Instruction is not a whirlpool instruction";;
  match raw instruction with
  | ParsedInstruction _ _ => Err "Instruction is not a parsed instruction"
  | PartiallyDecodedInstruction accounts data =>
      decodedData <- require (borshDecode data) "Instruction data does not contain name";;
      let '(name, fields) := decodedData in
      _ <- invariant (negb (String.eqb name "")) "Instruction data does not contain name";;
      handler <- require (decodeInstructionMap name accounts fields index instructions)
                         "Instruction data name is not supported";;
      u <- handler;;
      Ok {| ix := u; gathered := instruction |}
  end.

End Transaction.

End Decoder.

(** ** The summary builder ([analyzePosition], [analyzePositions]) *)

Module Summary.

(** [PositionData] of the whirlpools SDK: the fields read by the code and
    by the SDK quotes. *)
Record PositionData := {
  liquidity : Z;
  pd_tickLowerIndex : Z;
  pd_tickUpperIndex : Z;
  feeOwedA : Z;
  feeOwedB : Z;
  rewardAmountsOwed : list Z
}.

(** [TickData] of the whirlpools SDK. *)
Record TickData := {
  feeGrowthOutsideA : Z;
  feeGrowthOutsideB : Z;
  rewardGrowthsOutside : list Z
}.

(** A [Position] object of the SDK, by its getters. *)
Record Position := {
  getData : PositionData;
  getWhirlpoolData : WhirlpoolData;
  getLowerTickData : TickData;
  getUpperTickData : TickData
}.

(** The [Pick] returned by [getOutstandingBalances]. *)
Record Balances := {
  b_currentValue : Q;
  b_collectibleFeesValue : Q;
  b_collectibleRewardsValue : Q;
  b_reclaimableRent : Q
}.

Record PositionSummary := {
  whirlpool : string;
  position : string;
  positionMint : string;
  owner : string;
  openedAt : Z;
  closedAt : option Z;
  depositedValue : Q;
  positionSize : Q;
  withdrawnValue : Q;
  forgoneValue : Q;
  collectedFeesValue : Q;
  collectedRewardsValue : Q;
  transactionCost : Q;
  paidRent : Q;
  currentValue : Q;
  collectibleFeesValue : Q;
  collectibleRewardsValue : Q;
  reclaimableRent : Q;
  profit : Q;
  profitRatio : Q;
  forgoneProfit : Q;
  forgoneProfitRatio : Q;
  opportunityCost : Q;
  opportunityCostRatio : Q
}.

(** Command-line flags read by the logger ([args.debug], [args.quiet]). *)
Record Args := { debug : bool; quiet : bool }.

(** A line written by the logger. *)
Inductive LogLine : Type :=
| WarnLine (message : string) (address : string) (error : string)
| DebugLine (message : string) (count : nat).

(** [log(...)] writes unless [args.quiet]; [warn(...)] and [debug(...)]
    call it only when [args.debug]. *)
Definition log (args : Args) (line : LogLine) : list LogLine :=
  if quiet args then [] else [line].

Definition warn (args : Args) (line : LogLine) : list LogLine :=
  if debug args then log args line else [].

Definition debugLog (args : Args) (line : LogLine) : list LogLine :=
  if debug args then log args line else [].

Section Sdk.

(** The quotes of [@orca-so/whirlpools-sdk], an external library:
    [decreaseLiquidityQuoteByLiquidityWithParams] (token estimates A and B
    for a liquidity, tick range, sqrt price and current tick, at zero
    slippage), [collectFeesQuote] (fees owed A and B) and
    [collectRewardsQuote] (one optional amount per reward slot). *)
Variable decreaseLiquidityQuote : Z -> Z -> Z -> Z -> Z -> res (Z * Z).
Variable collectFeesQuote : WhirlpoolData -> PositionData -> TickData -> TickData -> res (Z * Z).
Variable collectRewardsQuote :
  WhirlpoolData -> PositionData -> TickData -> TickData -> res (list (option Z)).

Definition rewardValue (tokenMap : string -> option Token) (priceMap : PriceKey -> option Q)
    (quote : list (option Z)) (index : nat) (rewardMintOf : string) : Q :=
  match nth_error quote index, tokenMap rewardMintOf, priceMap (KeyCurrent rewardMintOf) with
  | Some (Some rewardAmount), Some token, Some price =>
      convertToUiAmount rewardAmount (decimals token) * price
  | _, _, _ => 0
  end.

(** [rewardInfos.map((rewardInfo, index) => ...).reduce(add, 0)] *)
Fixpoint sumRewards (tokenMap : string -> option Token) (priceMap : PriceKey -> option Q)
    (quote : list (option Z)) (index : nat) (acc : Q) (infos : list string) : Q :=
  match infos with
  | [] => acc
  | m :: rest =>
      sumRewards tokenMap priceMap quote (S index) (acc + rewardValue tokenMap priceMap quote index m) rest
  end.

Definition getOutstandingBalances (position : option Position) (whirlPool : WhirlpoolData)
    (tokenMap : string -> option Token) (priceMap : PriceKey -> option Q) : res Balances :=
  match position with
  | None =>
      Ok {| b_currentValue := 0; b_collectibleFeesValue := 0;
            b_collectibleRewardsValue := 0; b_reclaimableRent := 0 |}
  | Some p =>
      let positionData := getData p in
      let whirlpoolData := getWhirlpoolData p in
      let tickLower := getLowerTickData p in
      let tickUpper := getUpperTickData p in
      solToken <- require (tokenMap NATIVE_MINT) "SOL token not found";;
      tokenA <- require (tokenMap (tokenMintA whirlpoolData)) "Token A not found";;
      tokenB <- require (tokenMap (tokenMintB whirlpoolData)) "Token B not found";;
      solPrice <- require (priceMap (KeyCurrent NATIVE_MINT)) "Current SOL price not found";;
      tokenAPrice <- require (priceMap (KeyCurrent (mint tokenA))) "Current Token A price not found";;
      tokenBPrice <- require (priceMap (KeyCurrent (mint tokenB))) "Current Token B price not found";;
      est <- decreaseLiquidityQuote (liquidity positionData) (pd_tickLowerIndex positionData)
               (pd_tickUpperIndex positionData) (sqrtPrice whirlpoolData)
               (tickCurrentIndex whirlpoolData);;
      let '(tokenEstA, tokenEstB) := est in
      let tokenAAmount := convertToUiAmount tokenEstA (decimals tokenA) in
      let tokenBAmount := convertToUiAmount tokenEstB (decimals tokenB) in
      let currentValue := 0 + tokenAAmount * tokenAPrice + tokenBAmount * tokenBPrice in
      fees <- collectFeesQuote whirlpoolData positionData tickLower tickUpper;;
      let '(feeOwedA, feeOwedB) := fees in
      let collectibleFeesValue :=
        0 + convertToUiAmount feeOwedA (decimals tokenA) * tokenAPrice
          + convertToUiAmount feeOwedB (decimals tokenB) * tokenBPrice in
      rewards <- collectRewardsQuote whirlpoolData positionData tickLower tickUpper;;
      let collectibleRewardsValue :=
        sumRewards tokenMap priceMap rewards 0 0 (rewardInfos whirlPool) in
      let reclaimableRent :=
        convertToUiAmount (RECLAIMABLE_RENT_LAMPORTS - CLOSE_TRANSACTION_LAMPORTS)
                          (decimals solToken) * solPrice in
      Ok {| b_currentValue := currentValue;
            b_collectibleFeesValue := collectibleFeesValue;
            b_collectibleRewardsValue := collectibleRewardsValue;
            b_reclaimableRent := reclaimableRent |}
  end.

(** The checks of [analyzePosition] before [analyzeInstructions] is
    called (lines 229-246): the open instruction, the optional close
    instruction, the pool and the optional position account. *)
Definition openAndClose (instructions : list DecodedInstruction)
    (poolMap : string -> option WhirlpoolData)
  : res (DecodedInstruction * OpenPositionInstruction * option DecodedInstruction * WhirlpoolData) :=
  let openInstructions := filter isOpenPosition instructions in
  _ <- invariant (Nat.eqb (length openInstructions) 1) "No open instruction found.";;
  openInstruction <- require (hd_error openInstructions) "No open instruction found.";;
  o <- match ix openInstruction with
       | openPosition o => Ok o
       | _ => Err "Open instruction is not an open instruction."
       end;;
  let closePositions := filter isClosePosition instructions in
  _ <- invariant (Nat.leb (length closePositions) 1) "More than one close instruction found.";;
  let closeInstruction := hd_error closePositions in
  whirlpool <- require (poolMap (op_whirlpool o)) "Pool not found";;
  Ok (openInstruction, o, closeInstruction, whirlpool).

(** [analyzePosition(instructions, positionMap, poolMap, tokenMap,
    priceMap)].  The first component is the caller's [instructions] array
    after the call: [analyzeInstructions] sorts it in place. *)
Definition analyzePosition (instructions : list DecodedInstruction)
    (positionMap : string -> option Position) (poolMap : string -> option WhirlpoolData)
    (tokenMap : string -> option Token) (priceMap : PriceKey -> option Q)
  : list DecodedInstruction * res PositionSummary :=
  match openAndClose instructions poolMap with
  | Err m => (instructions, Err m)
  | Ok (openInstruction, o, closeInstruction, whirlpool) =>
      let position := positionMap (op_position o) in
      let '(after, analyzed) := Ledger.analyzeInstructions instructions whirlpool tokenMap priceMap in
      (after,
       t <- analyzed;;
       _ <- invariant (Qle_bool 1 (Ledger.t_depositedValue t))
                      "Deposited value to small to accurately analyze";;
       b <- getOutstandingBalances position whirlpool tokenMap priceMap;;
       let gains := Ledger.t_withdrawnValue t + b_currentValue b + Ledger.t_collectedFeesValue t
                    + Ledger.t_collectedRewardsValue t + b_collectibleFeesValue b
                    + b_collectibleRewardsValue b + b_reclaimableRent b in
       let losses := Ledger.t_depositedValue t + Ledger.t_transactionCost t + Ledger.t_paidRent t in
       let profit := gains - losses in
       let profitRatio := profit / Ledger.t_positionSize t in
       let forgoneProfit := Ledger.t_forgoneValue t - Ledger.t_depositedValue t in
       let forgoneProfitRatio := forgoneProfit / Ledger.t_positionSize t in
       let opportunityCost := forgoneProfit - profit in
       let opportunityCostRatio := - opportunityCost / Ledger.t_positionSize t in
       Ok {| whirlpool := op_whirlpool o;
             position := op_position o;
             positionMint := op_positionMint o;
             owner := op_owner o;
             openedAt := ixBlockTime openInstruction;
             closedAt := option_map ixBlockTime closeInstruction;
             depositedValue := Ledger.t_depositedValue t;
             withdrawnValue := Ledger.t_withdrawnValue t;
             forgoneValue := Ledger.t_forgoneValue t;
             positionSize := Ledger.t_positionSize t;
             collectedFeesValue := Ledger.t_collectedFeesValue t;
             collectedRewardsValue := Ledger.t_collectedRewardsValue t;
             paidRent := Ledger.t_paidRent t;
             transactionCost := Ledger.t_transactionCost t;
             currentValue := b_currentValue b;
             collectibleFeesValue := b_collectibleFeesValue b;
             collectibleRewardsValue := b_collectibleRewardsValue b;
             reclaimableRent := b_reclaimableRent b;
             profit := profit;
             profitRatio := profitRatio;
             forgoneProfit := forgoneProfit;
             forgoneProfitRatio := forgoneProfitRatio;
             opportunityCost := opportunityCost;
             opportunityCostRatio := opportunityCostRatio |})
  end.

(** [instructions.find((instruction) => "position" in instruction)?.position]:
    every variant of [InstructionUnion] has a [position] field. *)
Definition firstPosition (instructions : list DecodedInstruction) : option string :=
  match instructions with
  | [] => None
  | d :: _ => Some (ixPosition (ix d))
  end.

(** One call of the [flatMap] callback of [analyzePositions]: the
    summaries it returns and the lines it logs. *)
Definition analyzeOne (args : Args) (positionMap : string -> option Position)
    (poolMap : string -> option WhirlpoolData)
    (tokenMap : string -> option Token) (priceMap : PriceKey -> option Q)
    (instructions : list DecodedInstruction) : list PositionSummary * list LogLine :=
  let '(after, r) := analyzePosition instructions positionMap poolMap tokenMap priceMap in
  match r with
  | Ok s => ([s], [])
  | Err e =>
      match firstPosition after with
      | Some address => ([], warn args (WarnLine "Failed to analyze position" address e))
      | None => ([], [])
      end
  end.

Fixpoint flatMapPositions (args : Args) (positionMap : string -> option Position)
    (poolMap : string -> option WhirlpoolData)
    (tokenMap : string -> option Token) (priceMap : PriceKey -> option Q)
    (positions : list (list DecodedInstruction)) : list PositionSummary * list LogLine :=
  match positions with
  | [] => ([], [])
  | instructions :: rest =>
      let '(s1, l1) := analyzeOne args positionMap poolMap tokenMap priceMap instructions in
      let '(s2, l2) := flatMapPositions args positionMap poolMap tokenMap priceMap rest in
      ((s1 ++ s2)%list, (l1 ++ l2)%list)
  end.

(** [analyzePositions(position, positionMap, poolMap, tokenMap, priceMap)]:
    the returned summaries and the lines written to the terminal. *)
Definition analyzePositions (args : Args) (positions : list (list DecodedInstruction))
    (positionMap : string -> option Position) (poolMap : string -> option WhirlpoolData)
    (tokenMap : string -> option Token) (priceMap : PriceKey -> option Q)
  : list PositionSummary * list LogLine :=
  let '(summaries, logs) := flatMapPositions args positionMap poolMap tokenMap priceMap positions in
  (summaries, app logs (debugLog args (DebugLine "Analyzed instructions for" (length summaries)))).

End Sdk.

End Summary.

(** ** Batch functions around the decoder and the summary builder *)

Module Batch.

Import Summary.

(** [map.get(key)] on a JS [Map] kept as its entries in insertion order. *)
Fixpoint jsMapGet {V : Type} (k : string) (m : list (string * V)) : option V :=
  match m with
  | [] => None
  | (k', v) :: m' => if String.eqb k k' then Some v else jsMapGet k m'
  end.

(** [map.set(key, value)]: an existing key keeps its position and takes the
    new value; a new key goes last. *)
Fixpoint jsMapSet {V : Type} (k : string) (v : V) (m : list (string * V)) : list (string * V) :=
  match m with
  | [] => [(k, v)]
  | (k', v') :: m' => if String.eqb k k' then (k, v) :: m' else (k', v') :: jsMapSet k v m'
  end.

(** [set.add(key)] on a JS [Set] kept as its elements in insertion order. *)
Definition jsSetAdd (acc : list string) (k : string) : list string :=
  if existsb (String.eqb k) acc then acc else (acc ++ [k])%list.

(** [new Set(keys)]: the keys in the order of their first occurrence. *)
Definition jsSetOf (keys : list string) : list string := fold_left jsSetAdd keys [].

Section Sdk.

Variable borshDecode : string -> option (string * Decoder.InstructionData).

(** The two loops of [decodeTransactions]: every instruction of every
    transaction, decoded in place; a failed decode is skipped
    ([catch { continue; }]). *)
Definition decodeAll (transactions : list (list GatheredInstruction)) : list DecodedInstruction :=
  flat_map (fun instructions =>
              flat_map (fun j =>
                          match Decoder.decodeTransaction borshDecode j instructions with
                          | Ok d => [d]
                          | Err _ => []
                          end) (seq 0 (length instructions)))
           transactions.

(** The [reduce] of [decodeTransactions]: the decoded instructions grouped
    by [instruction.position.toString()]. *)
Definition groupByPosition (instructions : list DecodedInstruction)
  : list (string * list DecodedInstruction) :=
  fold_left (fun acc instruction =>
               let key := ixPosition (ix instruction) in
               let current := match jsMapGet key acc with Some l => l | None => [] end in
               jsMapSet key (current ++ [instruction])%list acc) instructions [].

(** [decodeTransactions(transactions)]: the map and the lines logged. *)
Definition decodeTransactions (args : Args) (transactions : list (list GatheredInstruction))
  : list (string * list DecodedInstruction) * list LogLine :=
  let instructions := decodeAll transactions in
  (groupByPosition instructions,
   debugLog args (DebugLine "Decoded" (length instructions))).

Variable decreaseLiquidityQuote : Z -> Z -> Z -> Z -> Z -> res (Z * Z).
Variable collectFeesQuote : WhirlpoolData -> PositionData -> TickData -> TickData -> res (Z * Z).
Variable collectRewardsQuote :
  WhirlpoolData -> PositionData -> TickData -> TickData -> res (list (option Z)).

(** [!bound || test]: an absent bound, and a bound of 0, accept. *)
Definition meetsBound (bound : option Q) (test : Q -> bool) : bool :=
  match bound with
  | None => true
  | Some m => Qeq_bool m 0 || test m
  end.

(** [getPositionValues(positions, minimumValue, maximumValue, tokenMap,
    priceMap)]; a position is given with its address
    ([position.getAddress()]).  The map and the lines logged. *)
Definition getPositionValues (args : Args) (positions : list (string * Position))
    (minimumValue maximumValue : option Q)
    (tokenMap : string -> option Token) (priceMap : PriceKey -> option Q)
  : list (string * Q) * list LogLine :=
  fold_left
    (fun acc position =>
       let '(values, logs) := acc in
       let '(address, p) := position in
       match getOutstandingBalances decreaseLiquidityQuote collectFeesQuote collectRewardsQuote
               (Some p) (getWhirlpoolData p) tokenMap priceMap with
       | Ok b =>
           let currentValue := b_currentValue b in
           let meetsMinimumValue := meetsBound minimumValue (fun m => Qle_bool m currentValue) in
           let meetsMaximumValue :=
             meetsBound maximumValue (fun m => negb (Qle_bool m currentValue)) in
           if meetsMinimumValue && meetsMaximumValue
           then (jsMapSet address currentValue values, logs)
           else (values, logs)
       | Err e => (values, (logs ++ warn args (WarnLine "Failed to get position value for" address e))%list)
       end)
    positions ([], []).

End Sdk.

(** [PublicKey.default.toString()] *)
Definition PUBLIC_KEY_DEFAULT : string := "11111111111111111111111111111111".

(** [computeTokenFetchSet(pools)] *)
Definition computeTokenFetchSet (pools : list WhirlpoolData) : list string :=
  jsSetOf (filter (fun key => negb (String.eqb key PUBLIC_KEY_DEFAULT))
             (flat_map (fun pool => NATIVE_MINT :: tokenMintA pool :: tokenMintB pool
                                     :: rewardInfos pool) pools)).

End Batch.

(** ** Concrete inputs used by the examples and witnesses *)

Module Fixtures.

Definition mintA : string := "TokenAMint1111111111111111111111111111111111".
Definition mintB : string := "TokenBMint1111111111111111111111111111111111".
Definition poolAddress : string := "Pool111111111111111111111111111111111111111".
Definition positionAddress : string := "Position1111111111111111111111111111111111".

Definition solToken : Token := {| mint := NATIVE_MINT; decimals := 9 |}.
Definition tokenA : Token := {| mint := mintA; decimals := 6 |}.
Definition tokenB : Token := {| mint := mintB; decimals := 6 |}.

Definition tokenMap (k : string) : option Token :=
  if String.eqb k NATIVE_MINT then Some solToken
  else if String.eqb k mintA then Some tokenA
  else if String.eqb k mintB then Some tokenB
  else None.

Definition pool : WhirlpoolData := {|
  tokenMintA := mintA; tokenMintB := mintB; rewardInfos := [];
  sqrtPrice := 0; tickCurrentIndex := 0 |}.

Definition poolMap (k : string) : option WhirlpoolData :=
  if String.eqb k poolAddress then Some pool else None.

(** SOL at 150, token B at 1, token A at 1 until time 1000 and 1.10 after
    (and now). *)
Definition priceMap (k : PriceKey) : option Q :=
  match k with
  | KeyAt m t =>
      if String.eqb m NATIVE_MINT then Some 150
      else if String.eqb m mintA then Some (if Z.leb t 1000 then 1 else 11 # 10)
      else if String.eqb m mintB then Some 1
      else None
  | KeyCurrent m =>
      if String.eqb m NATIVE_MINT then Some 150
      else if String.eqb m mintA then Some (11 # 10)
      else if String.eqb m mintB then Some 1
      else None
  end.

Definition gatheredAt (sig : string) (t : Z) : GatheredInstruction := {|
  signature := sig; blockTime := t; transactionFee := 5000; tokenMints := [];
  programId := WHIRLPOOL_PROGRAM_ID; raw := PartiallyDecodedInstruction [] "" |}.

Definition openIx : OpenPositionInstruction := {|
  op_whirlpool := poolAddress; op_position := positionAddress;
  op_positionMint := "PositionMint"; op_owner := "Owner";
  op_tickUpperIndex := 64; op_tickLowerIndex := -64;
  op_rentFee := PAYABLE_RENT_LAMPORTS_WITHOUT_METADATA |}.

Definition openAt (t : Z) : DecodedInstruction := {|
  ix := openPosition openIx;
  gathered := gatheredAt "sigOpen" t |}.

Definition increaseIx (liq a b : Z) : IncreaseLiquidityInstruction := {|
  il_whirlpool := poolAddress; il_position := positionAddress;
  liquidityIn := liq; il_tokenAMint := mintA; il_tokenBMint := mintB;
  tokenAIn := a; tokenBIn := b |}.

Definition increaseAt (liq a b t : Z) : DecodedInstruction := {|
  ix := increaseLiquidity (increaseIx liq a b);
  gathered := gatheredAt "sigIncrease" t |}.

Definition decreaseIx (liq a b : Z) : DecreaseLiquidityInstruction := {|
  dl_whirlpool := poolAddress; dl_position := positionAddress;
  liquidityOut := liq; dl_tokenAMint := mintA; dl_tokenBMint := mintB;
  tokenAOut := a; tokenBOut := b |}.

Definition decreaseAt (liq a b t : Z) : DecodedInstruction := {|
  ix := decreaseLiquidity (decreaseIx liq a b);
  gathered := gatheredAt "sigDecrease" t |}.

Definition closeIx (rent : Z) : ClosePositionInstruction := {|
  cp_position := positionAddress; reclaimedRent := rent |}.

Definition closeAt (rent t : Z) : DecodedInstruction := {|
  ix := closePosition (closeIx rent);
  gathered := gatheredAt "sigClose" t |}.

(** The SDK quotes are not reached for a closed position. *)
Definition noQuote5 (_ _ _ _ _ : Z) : res (Z * Z) := Err "no quote".
Definition noFeeQuote (_ : WhirlpoolData) (_ : Summary.PositionData)
    (_ _ : Summary.TickData) : res (Z * Z) := Err "no quote".
Definition noRewardQuote (_ : WhirlpoolData) (_ : Summary.PositionData)
    (_ _ : Summary.TickData) : res (list (option Z)) := Err "no quote".
Definition noPosition (_ : string) : option Summary.Position := None.

Definition defaultArgs : Summary.Args := {| Summary.debug := false; Summary.quiet := false |}.

(** A parsed [spl-token] transfer of [amount] (a decimal string). *)
Definition transferAt (sig amount : string) : GatheredInstruction := {|
  signature := sig; blockTime := 1000; transactionFee := 5000; tokenMints := [];
  programId := TOKEN_PROGRAM_ID;
  raw := ParsedInstruction "spl-token"
           (JObj [("type", JStr "transfer"); ("info", JObj [("amount", JStr amount)])]) |}.

(** The accounts of an [increaseLiquidity] instruction, in the IDL's order. *)
Definition increaseAccounts : list string :=
  ["Whirlpool"; TOKEN_PROGRAM_ID; "PositionAuthority"; "Position"; "PositionTokenAccount";
   "TokenOwnerAccountA"; "TokenOwnerAccountB"; "TokenVaultA"; "TokenVaultB";
   "TickArrayLower"; "TickArrayUpper"].

Definition increaseData : Decoder.InstructionData := [("liquidityAmount", JBN 100)].

Definition increaseGathered : GatheredInstruction := {|
  signature := "sigIncrease"; blockTime := 1000; transactionFee := 5000;
  tokenMints := [("TokenVaultA", mintA); ("TokenVaultB", mintB)];
  programId := WHIRLPOOL_PROGRAM_ID;
  raw := PartiallyDecodedInstruction increaseAccounts "increaseData" |}.

(** An [increaseLiquidity] followed by three transfers. *)
Definition increaseSiblings : list GatheredInstruction :=
  [increaseGathered; transferAt "sigIncrease" "10000000"; transferAt "sigIncrease" "5000000";
   transferAt "sigIncrease" "999"].

(** The accounts of an [openPosition] instruction, in the IDL's order. *)
Definition openAccounts : list string :=
  ["Funder"; "Owner"; "Position"; "PositionMint"; "PositionTokenAccount"; "Whirlpool";
   TOKEN_PROGRAM_ID; "SystemProgram"; "Rent"; "AssociatedTokenProgram"].

Definition openGathered : GatheredInstruction := {|
  signature := "sigOpen"; blockTime := 500; transactionFee := 5000; tokenMints := [];
  programId := WHIRLPOOL_PROGRAM_ID;
  raw := PartiallyDecodedInstruction openAccounts "openData" |}.

(** The borsh decoder on the instruction data of the fixtures. *)
Definition borshDecode (data : string) : option (string * Decoder.InstructionData) :=
  if String.eqb data "openData" then
    Some ("openPosition", [("tickLowerIndex", JNum (-64)); ("tickUpperIndex", JNum 64)])
  else if String.eqb data "increaseData" then Some ("increaseLiquidity", increaseData)
  else None.

End Fixtures.

(** * Auxiliary definitions of the proofs *)

(** ** Sums of per-event contributions *)

Fixpoint qsum (f : DecodedInstruction -> Q) (l : list DecodedInstruction) : Q :=
  match l with
  | [] => 0
  | d :: l' => f d + qsum f l'
  end.

(** The SOL price at an event's time, as the ledger looks it up. *)
Definition solPriceAt (priceMap : PriceKey -> option Q) (d : DecodedInstruction) : Q :=
  match priceMap (priceKey NATIVE_MINT (ixBlockTime d)) with
  | Some p => p
  | None => 0
  end.

(** The rent an event adds to [paidRent] and the rent it refunds. *)
Definition openRent (solToken : Token) (priceMap : PriceKey -> option Q)
    (d : DecodedInstruction) : Q :=
  match ix d with
  | openPosition o => convertToUiAmount (op_rentFee o) (decimals solToken) * solPriceAt priceMap d
  | _ => 0
  end.

Definition closeRent (solToken : Token) (priceMap : PriceKey -> option Q)
    (d : DecodedInstruction) : Q :=
  match ix d with
  | closePosition c =>
      - (convertToUiAmount (reclaimedRent c) (decimals solToken) * solPriceAt priceMap d)
  | _ => 0
  end.

(** The price of [m] at an event's time, as the ledger looks it up. *)
Definition priceAt (priceMap : PriceKey -> option Q) (m : string) (d : DecodedInstruction) : Q :=
  match priceMap (priceKey m (ixBlockTime d)) with
  | Some p => p
  | None => 0
  end.

(** What an event adds to [depositedValue], [withdrawnValue],
    [collectedFeesValue] and [collectedRewardsValue]. *)
Definition depositOf (tokenA tokenB : Token) (priceMap : PriceKey -> option Q)
    (d : DecodedInstruction) : Q :=
  match ix d with
  | increaseLiquidity i =>
      convertToUiAmount (tokenAIn i) (decimals tokenA) * priceAt priceMap (mint tokenA) d
      + convertToUiAmount (tokenBIn i) (decimals tokenB) * priceAt priceMap (mint tokenB) d
  | _ => 0
  end.

Definition withdrawalOf (tokenA tokenB : Token) (priceMap : PriceKey -> option Q)
    (d : DecodedInstruction) : Q :=
  match ix d with
  | decreaseLiquidity w =>
      convertToUiAmount (tokenAOut w) (decimals tokenA) * priceAt priceMap (mint tokenA) d
      + convertToUiAmount (tokenBOut w) (decimals tokenB) * priceAt priceMap (mint tokenB) d
  | _ => 0
  end.

Definition feesOf (tokenA tokenB : Token) (priceMap : PriceKey -> option Q)
    (d : DecodedInstruction) : Q :=
  match ix d with
  | collectFees c =>
      convertToUiAmount (tokenAFee c) (decimals tokenA) * priceAt priceMap (mint tokenA) d
      + convertToUiAmount (tokenBFee c) (decimals tokenB) * priceAt priceMap (mint tokenB) d
  | _ => 0
  end.

Definition rewardOf (tokenMap : string -> option Token) (priceMap : PriceKey -> option Q)
    (d : DecodedInstruction) : Q :=
  match ix d with
  | collectReward c =>
      match tokenMap (rewardMint c) with
      | Some rewardToken =>
          convertToUiAmount (rewardAmount c) (decimals rewardToken)
          * priceAt priceMap (mint rewardToken) d
      | None => 0
      end
  | _ => 0
  end.

(** The fee of an event's transaction at the SOL price of its time. *)
Definition feeOf (solToken : Token) (priceMap : PriceKey -> option Q) (d : DecodedInstruction) : Q :=
  convertToUiAmount (transactionFee (gathered d)) (decimals solToken) * solPriceAt priceMap d.

(** The fee computed at the last event of [l] whose signature is [s]. *)
Definition lastFee (solToken : Token) (priceMap : PriceKey -> option Q)
    (l : list DecodedInstruction) (s : string) : Q :=
  fold_left (fun acc d => if String.eqb (signature (gathered d)) s then feeOf solToken priceMap d
                          else acc) l 0.


(** The lookups one iteration of the ledger loop makes for an event: the SOL,
    token A and token B prices at its block time and, for a reward
    collection, the reward token and its price. *)
Definition eventPricesFound (tokenMap : string -> option Token)
    (priceMap : PriceKey -> option Q) (tokenA tokenB : Token) (d : DecodedInstruction) : Prop :=
  let t := ixBlockTime d in
  priceMap (priceKey NATIVE_MINT t) <> None /\
  priceMap (priceKey (mint tokenA) t) <> None /\
  priceMap (priceKey (mint tokenB) t) <> None /\
  match ix d with
  | collectReward c =>
      match tokenMap (rewardMint c) with
      | Some rt => priceMap (priceKey (mint rt) t) <> None
      | None => False
      end
  | _ => True
  end.



(** The bounds of [getPositionValues]: an absent or zero bound does not
    apply; otherwise the value is at least the minimum and below the
    maximum. *)
Definition withinBounds (minimumValue maximumValue : option Q) (v : Q) : Prop :=
  (forall m, minimumValue = Some m -> ~ m == 0 -> m <= v) /\
  (forall m, maximumValue = Some m -> ~ m == 0 -> v < m).

(** ** Transfers after an instruction in the sibling list *)

(** [j] is the index of the first token transfer strictly after [index]
    in [instructions], and its amount is [amount]. *)
Definition firstTransferAfter (instructions : list GatheredInstruction) (index j : nat)
    (amount : Z) : Prop :=
  (index < j)%nat /\
  (exists g, nth_error instructions j = Some g /\ Decoder.isTokenTransfer g = true /\
             Decoder.transferAmount g = Ok amount) /\
  (forall k g, (index < k < j)%nat -> nth_error instructions k = Some g ->
               Decoder.isTokenTransfer g = false).

(** No token transfer follows [index] in [instructions]. *)
Definition noTransferAfter (instructions : list GatheredInstruction) (index : nat) : Prop :=
  forall k g, (index < k)%nat -> nth_error instructions k = Some g ->
              Decoder.isTokenTransfer g = false.

(** * Properties of the position ledger *)

Lemma require_ok {A : Type} (o : option A) (msg : string) (a : A) :
  require o msg = Ok a -> o = Some a.
Proof. destruct o; simpl; congruence. Qed.

(** Peel the successful binds of a hypothesis [c1 ;; c2 ;; ... = Ok _]. *)
Ltac peel H :=
  repeat match type of H with
  | res_bind ?c _ = _ =>
      let E := fresh "E" in
      destruct c eqn:E; cbn [res_bind] in H; [|discriminate H]
  end.


Section LedgerProofs.

Import Ledger.

(** ** The sort is a permutation *)

Lemma insertByTime_perm (x : DecodedInstruction) (l : list DecodedInstruction) :
  Permutation (x :: l) (insertByTime x l).
Proof.
  induction l as [|y l IH]; simpl; [reflexivity|].
  destruct (Z.ltb (ixBlockTime x) (ixBlockTime y)); [reflexivity|].
  eapply perm_trans; [apply perm_swap|].
  now apply perm_skip.
Qed.

Lemma fold_insert_perm (l acc : list DecodedInstruction) :
  Permutation (l ++ acc) (fold_left (fun acc x => insertByTime x acc) l acc).
Proof.
  revert acc; induction l as [|x l IH]; intros acc; simpl; [reflexivity|].
  eapply perm_trans; [|apply IH].
  eapply perm_trans; [apply Permutation_middle|].
  apply Permutation_app_head, insertByTime_perm.
Qed.

Lemma sortByBlockTime_perm (l : list DecodedInstruction) :
  Permutation l (sortByBlockTime l).
Proof.
  unfold sortByBlockTime.
  rewrite <- (app_nil_r l) at 1.
  apply fold_insert_perm.
Qed.

Lemma qsum_perm (f : DecodedInstruction -> Q) (l l' : list DecodedInstruction) :
  Permutation l l' -> qsum f l == qsum f l'.
Proof.
  induction 1 as [| x l l' _ IH | x y l | l l' l'' _ IH1 _ IH2]; simpl.
  - reflexivity.
  - now rewrite IH.
  - ring.
  - now rewrite IH1.
Qed.

Lemma qsum_filter (f : DecodedInstruction -> Q) (p : DecodedInstruction -> bool)
    (l : list DecodedInstruction) :
  (forall d, p d = false -> f d == 0) -> qsum f l == qsum f (filter p l).
Proof.
  intros Hf; induction l as [|d l IH]; simpl; [reflexivity|].
  destruct (p d) eqn:E; simpl.
  - now rewrite IH.
  - rewrite (Hf d E), IH; ring.
Qed.

Lemma qsum_plus (f g : DecodedInstruction -> Q) (l : list DecodedInstruction) :
  qsum (fun d => f d + g d) l == qsum f l + qsum g l.
Proof.
  induction l as [|d l IH]; simpl; [ring|].
  rewrite IH; ring.
Qed.

Lemma step_paidRent tokenMap priceMap solToken tokenA tokenB st d st' :
  step tokenMap priceMap solToken tokenA tokenB st d = Ok st' ->
  paidRent st' == paidRent st + (openRent solToken priceMap d + closeRent solToken priceMap d).
Proof.
  unfold step, applyEvent, openRent, closeRent, solPriceAt.
  intros H; peel H.
  apply require_ok in E; rewrite E.
  destruct (ix d); try (injection H as <-; simpl; ring).
  peel H; injection H as <-; simpl; ring.
Qed.

Lemma runInstructions_paidRent tokenMap priceMap solToken tokenA tokenB l :
  forall st st',
  runInstructions tokenMap priceMap solToken tokenA tokenB st l = Ok st' ->
  paidRent st' == paidRent st
                  + qsum (fun d => openRent solToken priceMap d + closeRent solToken priceMap d) l.
Proof.
  induction l as [|d l IH]; intros st st' H; simpl in *.
  - injection H as <-; ring.
  - peel H.
    rewrite (IH _ _ H), (step_paidRent _ _ _ _ _ _ _ _ E); ring.
Qed.

End LedgerProofs.

Section LedgerClaims.

Import Ledger.

Lemma step_lookup tokenMap priceMap solToken tokenA tokenB st instruction pSol pA pB :
  priceMap (priceKey NATIVE_MINT (ixBlockTime instruction)) = Some pSol ->
  priceMap (priceKey (mint tokenA) (ixBlockTime instruction)) = Some pA ->
  priceMap (priceKey (mint tokenB) (ixBlockTime instruction)) = Some pB ->
  step tokenMap priceMap solToken tokenA tokenB st instruction
  = applyEvent tokenMap priceMap solToken tokenA tokenB st instruction pSol pA pB.
Proof.
  intros H1 H2 H3; unfold step; now rewrite H1, H2, H3.
Qed.

Lemma sort_two (a b : DecodedInstruction) :
  (ixBlockTime a <= ixBlockTime b)%Z -> sortByBlockTime [a; b] = [a; b].
Proof.
  intros H; unfold sortByBlockTime; simpl.
  destruct (Z.ltb (ixBlockTime b) (ixBlockTime a)) eqn:E; [|reflexivity].
  apply Z.ltb_lt in E; lia.
Qed.


(** C5 *)
(** Claim C5: in a sequence with one OpenPosition whose rent fee is [R]
    and one ClosePosition whose reclaimed rent is [R], when the SOL price
    at the open event's time is the SOL price at the close event's time,
    the accounting pass ends with a net [paidRent] of exactly zero: the
    open adds the fiat value of [R] and the close subtracts it. *)
Theorem rent_lifecycle_nets_to_zero instructions wd tokenMap priceMap dOpen dClose o c after t :
  filter isOpenPosition instructions = [dOpen] -> ix dOpen = openPosition o ->
  filter isClosePosition instructions = [dClose] -> ix dClose = closePosition c ->
  op_rentFee o = reclaimedRent c ->
  priceMap (priceKey NATIVE_MINT (ixBlockTime dOpen))
  = priceMap (priceKey NATIVE_MINT (ixBlockTime dClose)) ->
  analyzeInstructions instructions wd tokenMap priceMap = (after, Ok t) ->
  t_paidRent t == 0.
Proof.
  intros Hopen Ho Hclose Hc Hrent Hprice H.
  unfold analyzeInstructions in H; injection H as _ H.
  destruct (ledgerLoop instructions wd tokenMap priceMap) as [[[tA tB] st]|m] eqn:Eloop;
    cbn [res_bind] in H; [|discriminate H].
  peel H; injection H as <-; simpl.
  unfold ledgerLoop in Eloop; peel Eloop.
  injection Eloop as _ _ <-.
  match goal with
  | Hr : runInstructions _ _ ?sol _ _ _ _ = Ok _ |- _ =>
      rewrite (runInstructions_paidRent _ _ _ _ _ _ _ _ Hr); simpl;
      rewrite <- (qsum_perm _ _ _ (sortByBlockTime_perm instructions));
      rewrite qsum_plus;
      rewrite (qsum_filter (openRent sol priceMap) isOpenPosition),
              (qsum_filter (closeRent sol priceMap) isClosePosition), Hopen, Hclose
  end.
  - simpl; unfold openRent, closeRent, solPriceAt.
    rewrite Ho, Hc, Hrent, Hprice; ring.
  - intros d Hd; unfold closeRent, isClosePosition in *; destruct (ix d); easy.
  - intros d Hd; unfold openRent, isOpenPosition in *; destruct (ix d); easy.
Qed.

(** The hypotheses of [rent_lifecycle_nets_to_zero] hold for an open at
    time 500 and a close at time 3000 of the same rent. *)
Lemma rent_lifecycle_nets_to_zero_witness :
  match analyzeInstructions
          [Fixtures.openAt 500;
           Fixtures.closeAt PAYABLE_RENT_LAMPORTS_WITHOUT_METADATA 3000]
          Fixtures.pool Fixtures.tokenMap Fixtures.priceMap with
  | (_, Ok t) => t_paidRent t == 0
  | (_, Err _) => False
  end.
Proof.
  destruct (analyzeInstructions
              [Fixtures.openAt 500;
               Fixtures.closeAt PAYABLE_RENT_LAMPORTS_WITHOUT_METADATA 3000]
              Fixtures.pool Fixtures.tokenMap Fixtures.priceMap) as [after [t|m]] eqn:E.
  - apply (rent_lifecycle_nets_to_zero
             [Fixtures.openAt 500;
              Fixtures.closeAt PAYABLE_RENT_LAMPORTS_WITHOUT_METADATA 3000]
             Fixtures.pool Fixtures.tokenMap Fixtures.priceMap
             (Fixtures.openAt 500)
             (Fixtures.closeAt PAYABLE_RENT_LAMPORTS_WITHOUT_METADATA 3000)
             Fixtures.openIx (Fixtures.closeIx PAYABLE_RENT_LAMPORTS_WITHOUT_METADATA)
             after t); try reflexivity.
    exact E.
  - vm_compute in E; discriminate E.
Defined.

Lemma pow10_inject_nonzero (k : Z) : (0 <= k)%Z -> ~ inject_Z (10 ^ k) == 0.
Proof.
  intros Hk H; unfold Qeq in H; simpl in H.
  rewrite Z.mul_1_r in H; revert H; apply Z.pow_nonzero; lia.
Qed.

Lemma ui_scaled (n k : Z) : (0 <= k)%Z ->
  convertToUiAmount (n * 10 ^ k) k == inject_Z n.
Proof.
  intros Hk; unfold convertToUiAmount; rewrite inject_Z_mult.
  field; now apply pow10_inject_nonzero.
Qed.

Lemma ui_zero (k : Z) : convertToUiAmount 0 k == 0.
Proof. unfold convertToUiAmount, Qdiv; simpl; ring. Qed.

(** C4 *)
(** Claim C4: with an Increase (liquidity 100, 10 tokens A at 1 each, no
    token B) followed by a Decrease (liquidity 40, 4 tokens A out at 1.10,
    no token B), the pass records a deposited value of 10.00, a withdrawn
    value of 4.40, a forgone-value contribution of the decrease of
    4 x 1.10 = 4.40, and leaves a rolling token-A balance of 6.  Token
    amounts are raw amounts at token A's decimals; the SOL and token-B
    prices and the fees are arbitrary. *)
Theorem partial_withdrawal_scenario tokenMap priceMap wd solT tA tB i d gi1 gi2
    pSol1 pSol2 pB1 pB2 :
  tokenMap NATIVE_MINT = Some solT ->
  tokenMap (tokenMintA wd) = Some tA ->
  tokenMap (tokenMintB wd) = Some tB ->
  (0 <= decimals tA)%Z ->
  liquidityIn i = 100%Z -> tokenAIn i = (10 * 10 ^ decimals tA)%Z -> tokenBIn i = 0%Z ->
  liquidityOut d = 40%Z -> tokenAOut d = (4 * 10 ^ decimals tA)%Z -> tokenBOut d = 0%Z ->
  (blockTime gi1 <= blockTime gi2)%Z ->
  priceMap (priceKey NATIVE_MINT (blockTime gi1)) = Some pSol1 ->
  priceMap (priceKey (mint tA) (blockTime gi1)) = Some 1 ->
  priceMap (priceKey (mint tB) (blockTime gi1)) = Some pB1 ->
  priceMap (priceKey NATIVE_MINT (blockTime gi2)) = Some pSol2 ->
  priceMap (priceKey (mint tA) (blockTime gi2)) = Some (11 # 10) ->
  priceMap (priceKey (mint tB) (blockTime gi2)) = Some pB2 ->
  let inc := {| ix := increaseLiquidity i; gathered := gi1 |} in
  let dec := {| ix := decreaseLiquidity d; gathered := gi2 |} in
  exists st1 st2,
    runInstructions tokenMap priceMap solT tA tB initState [inc] = Ok st1 /\
    step tokenMap priceMap solT tA tB st1 dec = Ok st2 /\
    ledgerLoop [inc; dec] wd tokenMap priceMap = Ok (tA, tB, st2) /\
    depositedValue st2 == 10 /\
    withdrawnValue st2 == 44 # 10 /\
    forgoneValue st2 - forgoneValue st1 == 44 # 10 /\
    rollingTokenAAmount st2 == 6.
Proof.
  intros Hsol HtA HtB Hdec Hli HaI HbI Hlo HaO HbO Ht HS1 HA1 HB1 HS2 HA2 HB2 inc dec.
  assert (E1 : step tokenMap priceMap solT tA tB initState inc
               = applyEvent tokenMap priceMap solT tA tB initState inc pSol1 1 pB1)
    by (apply step_lookup; assumption).
  remember (applyEvent tokenMap priceMap solT tA tB initState inc pSol1 1 pB1) as r1 eqn:Er1.
  unfold applyEvent in Er1; simpl in Er1.
  set (st1 := match r1 with Ok s => s | Err _ => initState end).
  assert (Hr1 : r1 = Ok st1) by (subst r1; reflexivity).
  assert (E2 : step tokenMap priceMap solT tA tB st1 dec
               = applyEvent tokenMap priceMap solT tA tB st1 dec pSol2 (11 # 10) pB2)
    by (apply step_lookup; assumption).
  remember (applyEvent tokenMap priceMap solT tA tB st1 dec pSol2 (11 # 10) pB2) as r2 eqn:Er2.
  unfold applyEvent in Er2; simpl in Er2.
  set (st2 := match r2 with Ok s => s | Err _ => initState end).
  assert (Hr2 : r2 = Ok st2) by (subst r2; reflexivity).
  exists st1, st2.
  split; [simpl; rewrite E1, Hr1; reflexivity|].
  split; [rewrite E2, Hr2; reflexivity|].
  split.
  { unfold ledgerLoop; rewrite Hsol, HtA, HtB, sort_two by exact Ht; simpl.
    rewrite E1, Hr1; simpl; rewrite E2, Hr2; reflexivity. }
  clear E1 E2 Hr1 Hr2; subst st2 r2; subst st1 r1; simpl.
  unfold withdrawnPercentage; simpl.
  rewrite ?Hli, ?HaI, ?HbI, ?Hlo, ?HaO, ?HbO.
  rewrite !ui_scaled, !ui_zero by exact Hdec.
  repeat split; unfold Qdiv; simpl; ring_simplify; reflexivity.
Qed.

(** The hypotheses of [partial_withdrawal_scenario] hold with token A at 6
    decimals, SOL at 150, token B at 1, the increase at time 1000 and the
    decrease at time 2000. *)
Lemma partial_withdrawal_scenario_witness :
  exists st1 st2,
    runInstructions Fixtures.tokenMap Fixtures.priceMap Fixtures.solToken
      Fixtures.tokenA Fixtures.tokenB initState [Fixtures.increaseAt 100 10000000 0 1000]
    = Ok st1 /\
    step Fixtures.tokenMap Fixtures.priceMap Fixtures.solToken
      Fixtures.tokenA Fixtures.tokenB st1 (Fixtures.decreaseAt 40 4000000 0 2000) = Ok st2 /\
    ledgerLoop [Fixtures.increaseAt 100 10000000 0 1000; Fixtures.decreaseAt 40 4000000 0 2000]
      Fixtures.pool Fixtures.tokenMap Fixtures.priceMap
    = Ok (Fixtures.tokenA, Fixtures.tokenB, st2) /\
    depositedValue st2 == 10 /\
    withdrawnValue st2 == 44 # 10 /\
    forgoneValue st2 - forgoneValue st1 == 44 # 10 /\
    rollingTokenAAmount st2 == 6.
Proof.
  apply (partial_withdrawal_scenario Fixtures.tokenMap Fixtures.priceMap Fixtures.pool
           Fixtures.solToken Fixtures.tokenA Fixtures.tokenB
           (Fixtures.increaseIx 100 10000000 0) (Fixtures.decreaseIx 40 4000000 0)
           (Fixtures.gatheredAt "sigIncrease" 1000) (Fixtures.gatheredAt "sigDecrease" 2000)
           150 150 1 1);
    first [reflexivity | simpl; lia].
Defined.

(** C1 *)
(** Claim C1, as the code has it: a [decreaseLiquidity] event is applied
    whatever its withdrawn fraction [liquidityOut / totalLiquidity]; there
    is no range check on the fraction.  Once the three prices at its time
    are found the step succeeds, for every rolling state (a fraction above
    1, a fraction of 0, a rolling total liquidity of 0 included), and the
    rolling total liquidity (a [BN], exact) becomes [totalLiquidity -
    liquidityOut], negative when more liquidity is withdrawn than the
    rolling total. *)
Theorem decrease_step_applies_unchecked_fraction tokenMap priceMap solT tA tB st d g
    pSol pA pB :
  priceMap (priceKey NATIVE_MINT (blockTime g)) = Some pSol ->
  priceMap (priceKey (mint tA) (blockTime g)) = Some pA ->
  priceMap (priceKey (mint tB) (blockTime g)) = Some pB ->
  exists st',
    step tokenMap priceMap solT tA tB st {| ix := decreaseLiquidity d; gathered := g |} = Ok st' /\
    totalLiquidity st' = (totalLiquidity st - liquidityOut d)%Z /\
    ((totalLiquidity st < liquidityOut d)%Z -> (totalLiquidity st' < 0)%Z).
Proof.
  intros HS HA HB.
  rewrite (step_lookup _ _ _ _ _ _ _ pSol pA pB) by assumption.
  eexists; split; [reflexivity|].
  simpl; split; [reflexivity|lia].
Qed.

(** The hypotheses of [decrease_step_applies_unchecked_fraction] hold for
    the fixture prices at time 2000, in the state left by an increase of
    liquidity 100 at time 1000, for a decrease of liquidity 150. *)
Lemma decrease_step_applies_unchecked_fraction_witness :
  let st1 := match runInstructions Fixtures.tokenMap Fixtures.priceMap Fixtures.solToken
                     Fixtures.tokenA Fixtures.tokenB initState
                     [Fixtures.increaseAt 100 10000000 0 1000] with
             | Ok s => s
             | Err _ => initState
             end in
  exists st',
    step Fixtures.tokenMap Fixtures.priceMap Fixtures.solToken Fixtures.tokenA Fixtures.tokenB
      st1 (Fixtures.decreaseAt 150 0 0 2000) = Ok st' /\
    totalLiquidity st' = (totalLiquidity st1 - liquidityOut (Fixtures.decreaseIx 150 0 0))%Z /\
    ((totalLiquidity st1 < liquidityOut (Fixtures.decreaseIx 150 0 0))%Z ->
     (totalLiquidity st' < 0)%Z).
Proof.
  intros st1.
  apply (decrease_step_applies_unchecked_fraction Fixtures.tokenMap Fixtures.priceMap
           Fixtures.solToken Fixtures.tokenA Fixtures.tokenB st1
           (Fixtures.decreaseIx 150 0 0) (Fixtures.gatheredAt "sigDecrease" 2000)
           150 (11 # 10) 1); reflexivity.
Defined.

(** Counterexample to claim C1: after an increase of liquidity 100 (10
    tokens A), a decrease of liquidity 150 has the withdrawn fraction 3/2,
    outside (0, 1]; the pass does not fail but goes on and leaves a
    rolling token-A balance of -5, and [analyzeInstructions] returns its
    totals. *)
Lemma withdrawn_fraction_above_one_is_accepted :
  exists st1 st2 t,
    runInstructions Fixtures.tokenMap Fixtures.priceMap Fixtures.solToken
      Fixtures.tokenA Fixtures.tokenB initState [Fixtures.increaseAt 100 10000000 0 1000]
    = Ok st1 /\
    withdrawnPercentage st1 (Fixtures.decreaseIx 150 0 0) == 3 # 2 /\
    step Fixtures.tokenMap Fixtures.priceMap Fixtures.solToken
      Fixtures.tokenA Fixtures.tokenB st1 (Fixtures.decreaseAt 150 0 0 2000) = Ok st2 /\
    rollingTokenAAmount st2 == -5 /\
    snd (analyzeInstructions
           [Fixtures.increaseAt 100 10000000 0 1000; Fixtures.decreaseAt 150 0 0 2000]
           Fixtures.pool Fixtures.tokenMap Fixtures.priceMap) = Ok t.
Proof.
  do 3 eexists.
  split; [reflexivity|].
  split; [vm_compute; reflexivity|].
  split; [reflexivity|].
  split; [vm_compute; reflexivity|].
  reflexivity.
Qed.

(** C3 *)
(** Claim C3, as the code has it: for one [increaseLiquidity] (liquidity
    [L <> 0], raw amounts [a], [b]) followed by one [decreaseLiquidity]
    withdrawing all the liquidity [L], the rolling token balances end at
    exactly zero and the forgone value accumulated before the
    remaining-balance adjustment is the deposited amounts valued at the
    prices of the DECREASE's time.  It is the deposited value [V] (priced
    at the increase's time) when the token prices at the two times are
    equal. *)
Theorem full_withdrawal_forgone_at_decrease_prices tokenMap priceMap wd solT tA tB i d gi1 gi2
    pSol1 pSol2 pA1 pA2 pB1 pB2 :
  tokenMap NATIVE_MINT = Some solT ->
  tokenMap (tokenMintA wd) = Some tA ->
  tokenMap (tokenMintB wd) = Some tB ->
  (0 <= decimals tA)%Z -> (0 <= decimals tB)%Z ->
  liquidityIn i <> 0%Z -> liquidityOut d = liquidityIn i ->
  (blockTime gi1 <= blockTime gi2)%Z ->
  priceMap (priceKey NATIVE_MINT (blockTime gi1)) = Some pSol1 ->
  priceMap (priceKey (mint tA) (blockTime gi1)) = Some pA1 ->
  priceMap (priceKey (mint tB) (blockTime gi1)) = Some pB1 ->
  priceMap (priceKey NATIVE_MINT (blockTime gi2)) = Some pSol2 ->
  priceMap (priceKey (mint tA) (blockTime gi2)) = Some pA2 ->
  priceMap (priceKey (mint tB) (blockTime gi2)) = Some pB2 ->
  exists st,
    ledgerLoop [{| ix := increaseLiquidity i; gathered := gi1 |};
                {| ix := decreaseLiquidity d; gathered := gi2 |}] wd tokenMap priceMap
    = Ok (tA, tB, st) /\
    rollingTokenAAmount st == 0 /\
    rollingTokenBAmount st == 0 /\
    forgoneValue st == convertToUiAmount (tokenAIn i) (decimals tA) * pA2
                       + convertToUiAmount (tokenBIn i) (decimals tB) * pB2 /\
    depositedValue st == convertToUiAmount (tokenAIn i) (decimals tA) * pA1
                         + convertToUiAmount (tokenBIn i) (decimals tB) * pB1 /\
    (pA1 == pA2 -> pB1 == pB2 -> forgoneValue st == depositedValue st).
Proof.
  intros Hsol HtA HtB HdA HdB HL Hout Ht HS1 HA1 HB1 HS2 HA2 HB2.
  unfold ledgerLoop; rewrite Hsol, HtA, HtB, sort_two by exact Ht; cbn [res_bind require].
  cbn [runInstructions].
  rewrite (step_lookup _ _ _ _ _ _ _ pSol1 pA1 pB1) by assumption; cbn [res_bind].
  unfold applyEvent at 1; cbn.
  rewrite (step_lookup _ _ _ _ _ _ _ pSol2 pA2 pB2) by assumption.
  eexists; split; [reflexivity|].
  unfold withdrawnPercentage; simpl; rewrite Hout.
  assert (HLq : ~ inject_Z (liquidityIn i) == 0).
  { unfold Qeq; simpl; lia. }
  assert (Hpct : inject_Z (liquidityIn i) / inject_Z (0 + liquidityIn i) == 1).
  { rewrite Z.add_0_l; field; exact HLq. }
  rewrite Hpct.
  split; [ring|]. split; [ring|]. split; [ring|]. split; [ring|].
  intros HpA HpB; rewrite HpA, HpB; ring.
Qed.

(** The hypotheses of [full_withdrawal_forgone_at_decrease_prices] hold
    for the fixtures with the increase at time 1000 and the decrease at
    time 2000. *)
Lemma full_withdrawal_forgone_at_decrease_prices_witness :
  exists st,
    ledgerLoop [Fixtures.increaseAt 100 10000000 0 1000; Fixtures.decreaseAt 100 11000000 0 2000]
      Fixtures.pool Fixtures.tokenMap Fixtures.priceMap
    = Ok (Fixtures.tokenA, Fixtures.tokenB, st) /\
    rollingTokenAAmount st == 0 /\
    rollingTokenBAmount st == 0 /\
    forgoneValue st == convertToUiAmount 10000000 6 * (11 # 10) + convertToUiAmount 0 6 * 1 /\
    depositedValue st == convertToUiAmount 10000000 6 * 1 + convertToUiAmount 0 6 * 1 /\
    (1 == 11 # 10 -> 1 == 1 -> forgoneValue st == depositedValue st).
Proof.
  apply (full_withdrawal_forgone_at_decrease_prices Fixtures.tokenMap Fixtures.priceMap
           Fixtures.pool Fixtures.solToken Fixtures.tokenA Fixtures.tokenB
           (Fixtures.increaseIx 100 10000000 0) (Fixtures.decreaseIx 100 11000000 0)
           (Fixtures.gatheredAt "sigIncrease" 1000) (Fixtures.gatheredAt "sigDecrease" 2000)
           150 150 1 (11 # 10) 1 1);
    first [reflexivity | simpl; lia | discriminate].
Defined.

(** Counterexample to claim C3: an increase of 10 tokens A at price 1
    (deposited value [V = 10]) followed by a full decrease at a time when
    token A is at 1.10 accumulates a forgone value of 11, not [V]. *)
Lemma full_withdrawal_forgone_differs_from_deposit :
  exists st,
    ledgerLoop [Fixtures.increaseAt 100 10000000 0 1000; Fixtures.decreaseAt 100 11000000 0 2000]
      Fixtures.pool Fixtures.tokenMap Fixtures.priceMap
    = Ok (Fixtures.tokenA, Fixtures.tokenB, st) /\
    depositedValue st == 10 /\
    forgoneValue st == 11 /\
    ~ forgoneValue st == depositedValue st.
Proof.
  eexists; split; [reflexivity|].
  split; [vm_compute; reflexivity|].
  split; [vm_compute; reflexivity|].
  vm_compute; discriminate.
Qed.

(** C9 *)
(** Claim C9 fails: [analyzeInstructions] sorts the caller's array in
    place ([instructions.sort(...)], line 321), so a caller that passes
    a decrease at time 2000 before an increase at time 1000 finds the two
    swapped in its own array after the call. *)
Theorem analyzeInstructions_sorts_caller_array :
  let instructions :=
    [Fixtures.decreaseAt 40 4000000 0 2000; Fixtures.increaseAt 100 10000000 0 1000] in
  fst (analyzeInstructions instructions Fixtures.pool Fixtures.tokenMap Fixtures.priceMap)
  = [Fixtures.increaseAt 100 10000000 0 1000; Fixtures.decreaseAt 40 4000000 0 2000] /\
  fst (analyzeInstructions instructions Fixtures.pool Fixtures.tokenMap Fixtures.priceMap)
  <> instructions.
Proof.
  intros instructions; split; [reflexivity|].
  vm_compute; congruence.
Qed.

End LedgerClaims.

(** * Properties of the decoder *)

(** Peel the successful binds of a hypothesis, splitting the pairs that
    [const [x, i] = ...] destructures. *)
Ltac peel_pairs H :=
  repeat match type of H with
  | res_bind ?c _ = _ =>
      let E := fresh "E" in
      destruct c eqn:E; cbn [res_bind] in H; [|discriminate H]
  | context [match ?p with pair _ _ => _ end] => destruct p
  end.

Section DecoderProofs.

Import Decoder.

Lemma scan_some (instructions rest : list GatheredInstruction) :
  forall i a j,
  (forall n, nth_error rest n = nth_error instructions (i + n)) ->
  scanTransfers i rest = Ok (Some (a, j)) ->
  (i <= j)%nat /\
  (exists g, nth_error instructions j = Some g /\ isTokenTransfer g = true /\
             transferAmount g = Ok a) /\
  (forall k g, (i <= k < j)%nat -> nth_error instructions k = Some g ->
               isTokenTransfer g = false).
Proof.
  induction rest as [|g rest IH]; intros i a j Hinv H; simpl in H; [discriminate H|].
  assert (H0 : nth_error instructions i = Some g).
  { specialize (Hinv 0%nat); rewrite Nat.add_0_r in Hinv; now rewrite <- Hinv. }
  destruct (isTokenTransfer g) eqn:Eg.
  - destruct (transferAmount g) as [a0|m] eqn:Ea; cbn [res_bind] in H; [|discriminate H].
    injection H as <- <-.
    split; [lia|]. split; [exists g; auto|].
    intros k g' Hk; lia.
  - destruct (IH (S i) a j) as (Hle & Hg & Hk); [|exact H|].
    { intros n; specialize (Hinv (S n)); simpl in Hinv; rewrite Hinv; f_equal; lia. }
    split; [lia|]. split; [exact Hg|].
    intros k g' Hk' Hn.
    destruct (Nat.eq_dec k i) as [->|Hne].
    + rewrite H0 in Hn; injection Hn as <-; exact Eg.
    + apply (Hk k); [lia|exact Hn].
Qed.

Lemma scan_none (instructions rest : list GatheredInstruction) :
  forall i,
  (forall n, nth_error rest n = nth_error instructions (i + n)) ->
  scanTransfers i rest = Ok None ->
  forall k g, (i <= k)%nat -> nth_error instructions k = Some g -> isTokenTransfer g = false.
Proof.
  induction rest as [|g0 rest IH]; intros i Hinv H k g Hk Hn.
  - specialize (Hinv (k - i)%nat).
    replace (i + (k - i))%nat with k in Hinv by lia.
    destruct (k - i)%nat; simpl in Hinv; congruence.
  - assert (H0 : nth_error instructions i = Some g0).
    { specialize (Hinv 0%nat); rewrite Nat.add_0_r in Hinv; now rewrite <- Hinv. }
    simpl in H; destruct (isTokenTransfer g0) eqn:Eg.
    + destruct (transferAmount g0); discriminate H.
    + destruct (Nat.eq_dec k i) as [->|Hne].
      * rewrite H0 in Hn; injection Hn as <-; exact Eg.
      * apply (IH (S i)) with (k := k); [|exact H|lia|exact Hn].
        intros n; specialize (Hinv (S n)); simpl in Hinv; rewrite Hinv; f_equal; lia.
Qed.

Lemma next_some index instructions a j :
  nextTokenTransferAmount index instructions = Ok (Some (a, j)) ->
  firstTransferAfter instructions index j a.
Proof.
  unfold nextTokenTransferAmount, firstTransferAfter; intros H.
  apply (scan_some instructions (skipn (S index) instructions)) in H;
    [|intros n; apply nth_error_skipn].
  exact H.
Qed.

Lemma next_none index instructions :
  nextTokenTransferAmount index instructions = Ok None ->
  noTransferAfter instructions index.
Proof.
  unfold nextTokenTransferAmount, noTransferAfter; intros H k g Hk.
  apply (scan_none instructions (skipn (S index) instructions) (S index)); auto.
  intros n; apply nth_error_skipn.
Qed.

Lemma requireTransfer_ok r msg a j :
  requireTransfer r msg = Ok (a, j) -> r = Ok (Some (a, j)).
Proof.
  unfold requireTransfer; destruct r as [[[a' j']|]|m]; simpl; intros H;
    try discriminate H; congruence.
Qed.

Lemma firstTransfer_unique instructions index j j' a a' :
  firstTransferAfter instructions index j a -> firstTransferAfter instructions index j' a' ->
  j = j' /\ a = a'.
Proof.
  intros (H1 & (g & Hg & Ht & Ha) & Hk) (H1' & (g' & Hg' & Ht' & Ha') & Hk').
  destruct (Nat.lt_trichotomy j j') as [Hlt|[<-|Hlt]].
  - specialize (Hk' j g (conj H1 Hlt) Hg); congruence.
  - rewrite Hg in Hg'; injection Hg' as <-; rewrite Ha in Ha'; injection Ha' as ->; auto.
  - specialize (Hk j' g' (conj H1' Hlt) Hg'); congruence.
Qed.

Lemma firstTransfer_noTransfer instructions index j a :
  firstTransferAfter instructions index j a -> noTransferAfter instructions index -> False.
Proof.
  intros (H1 & (g & Hg & Ht & _) & _) Hno.
  specialize (Hno j g H1 Hg); congruence.
Qed.

(** The two transfers read by a dual-token decoder. *)
Ltac two_transfers index :=
  match goal with
  | Ea : requireTransfer (nextTokenTransferAmount index _) _ = Ok (_, ?j),
    Eb : requireTransfer (nextTokenTransferAmount ?j _) _ = Ok (_, ?k) |- _ =>
      exists j, k; split; apply next_some; eapply requireTransfer_ok; eassumption
  end.

Lemma decodeIncreaseLiquidity_transfers accounts data index instructions r :
  decodeIncreaseLiquidity accounts data index instructions = Ok r ->
  exists j k, firstTransferAfter instructions index j (tokenAIn r) /\
              firstTransferAfter instructions j k (tokenBIn r).
Proof.
  unfold decodeIncreaseLiquidity; intros H; peel_pairs H; injection H as <-; simpl.
  two_transfers index.
Qed.

Lemma decodeDecreaseLiquidity_transfers accounts data index instructions r :
  decodeDecreaseLiquidity accounts data index instructions = Ok r ->
  exists j k, firstTransferAfter instructions index j (tokenAOut r) /\
              firstTransferAfter instructions j k (tokenBOut r).
Proof.
  unfold decodeDecreaseLiquidity; intros H; peel_pairs H; injection H as <-; simpl.
  two_transfers index.
Qed.

Lemma decodeCollectFee_transfers accounts data index instructions r :
  decodeCollectFee accounts data index instructions = Ok r ->
  exists j k, firstTransferAfter instructions index j (tokenAFee r) /\
              firstTransferAfter instructions j k (tokenBFee r).
Proof.
  unfold decodeCollectFee; intros H; peel_pairs H; injection H as <-; simpl.
  two_transfers index.
Qed.

Lemma decodeCollectReward_transfer accounts data index instructions r :
  decodeCollectReward accounts data index instructions = Ok r ->
  exists j, firstTransferAfter instructions index j (rewardAmount r).
Proof.
  unfold decodeCollectReward; intros H; peel_pairs H; injection H as <-; simpl.
  match goal with
  | Ea : requireTransfer (nextTokenTransferAmount index _) _ = Ok (_, ?j) |- _ =>
      exists j; apply next_some; eapply requireTransfer_ok; eassumption
  end.
Qed.

(** A decoder whose two transfers are read lacks the second one. *)
Lemma second_transfer_missing instructions index j a :
  firstTransferAfter instructions index j a -> noTransferAfter instructions j ->
  forall x y, ~ (exists j' k, firstTransferAfter instructions index j' x /\
                              firstTransferAfter instructions j' k y).
Proof.
  intros Hj Hno x y (j' & k & Hj' & Hk).
  destruct (firstTransfer_unique _ _ _ _ _ _ Hj Hj') as [<- _].
  exact (firstTransfer_noTransfer _ _ _ _ Hk Hno).
Qed.

End DecoderProofs.

Section DecoderClaims.

Import Decoder.

(** C8 *)
(** Claim C8: each amount-bearing decoder takes its amounts from the token
    transfers that follow the instruction in the sibling list, scanning
    forward from the next index: on success the first amount is the one of
    the first transfer after [index] (at [j]) and, for the dual-token
    decoders (increase, decrease, collect fees), the second is the one of
    the first transfer after [j] (so at some [k > j]).  The decode fails
    when no transfer follows [index], and a dual-token decode fails when
    no transfer follows the first one. *)
Theorem decoders_take_first_transfers_after_index accounts data index instructions :
  (forall r, decodeIncreaseLiquidity accounts data index instructions = Ok r ->
     exists j k, firstTransferAfter instructions index j (tokenAIn r) /\
                 firstTransferAfter instructions j k (tokenBIn r)) /\
  (forall r, decodeDecreaseLiquidity accounts data index instructions = Ok r ->
     exists j k, firstTransferAfter instructions index j (tokenAOut r) /\
                 firstTransferAfter instructions j k (tokenBOut r)) /\
  (forall r, decodeCollectFee accounts data index instructions = Ok r ->
     exists j k, firstTransferAfter instructions index j (tokenAFee r) /\
                 firstTransferAfter instructions j k (tokenBFee r)) /\
  (forall r, decodeCollectReward accounts data index instructions = Ok r ->
     exists j, firstTransferAfter instructions index j (rewardAmount r)) /\
  (noTransferAfter instructions index ->
     (forall r, decodeIncreaseLiquidity accounts data index instructions <> Ok r) /\
     (forall r, decodeDecreaseLiquidity accounts data index instructions <> Ok r) /\
     (forall r, decodeCollectFee accounts data index instructions <> Ok r) /\
     (forall r, decodeCollectReward accounts data index instructions <> Ok r)) /\
  (forall j a, firstTransferAfter instructions index j a -> noTransferAfter instructions j ->
     (forall r, decodeIncreaseLiquidity accounts data index instructions <> Ok r) /\
     (forall r, decodeDecreaseLiquidity accounts data index instructions <> Ok r) /\
     (forall r, decodeCollectFee accounts data index instructions <> Ok r)).
Proof.
  split; [apply decodeIncreaseLiquidity_transfers|].
  split; [apply decodeDecreaseLiquidity_transfers|].
  split; [apply decodeCollectFee_transfers|].
  split; [apply decodeCollectReward_transfer|].
  split.
  - intros Hno; repeat split; intros r Hr.
    + destruct (decodeIncreaseLiquidity_transfers _ _ _ _ _ Hr) as (j & k & Hj & _).
      exact (firstTransfer_noTransfer _ _ _ _ Hj Hno).
    + destruct (decodeDecreaseLiquidity_transfers _ _ _ _ _ Hr) as (j & k & Hj & _).
      exact (firstTransfer_noTransfer _ _ _ _ Hj Hno).
    + destruct (decodeCollectFee_transfers _ _ _ _ _ Hr) as (j & k & Hj & _).
      exact (firstTransfer_noTransfer _ _ _ _ Hj Hno).
    + destruct (decodeCollectReward_transfer _ _ _ _ _ Hr) as (j & Hj).
      exact (firstTransfer_noTransfer _ _ _ _ Hj Hno).
  - intros j a Hj Hno; repeat split; intros r Hr.
    + exact (second_transfer_missing _ _ _ _ Hj Hno _ _
               (decodeIncreaseLiquidity_transfers _ _ _ _ _ Hr)).
    + exact (second_transfer_missing _ _ _ _ Hj Hno _ _
               (decodeDecreaseLiquidity_transfers _ _ _ _ _ Hr)).
    + exact (second_transfer_missing _ _ _ _ Hj Hno _ _
               (decodeCollectFee_transfers _ _ _ _ _ Hr)).
Qed.

(** An [increaseLiquidity] at index 0 followed by transfers of 10000000,
    5000000 and 999 decodes, and its amounts are those of the transfers at
    indices 1 and 2. *)
Lemma decoders_take_first_transfers_after_index_witness :
  match decodeIncreaseLiquidity Fixtures.increaseAccounts Fixtures.increaseData 0
          Fixtures.increaseSiblings with
  | Ok r =>
      tokenAIn r = 10000000%Z /\ tokenBIn r = 5000000%Z /\
      exists j k, firstTransferAfter Fixtures.increaseSiblings 0 j (tokenAIn r) /\
                  firstTransferAfter Fixtures.increaseSiblings j k (tokenBIn r)
  | Err _ => False
  end.
Proof.
  destruct (decodeIncreaseLiquidity Fixtures.increaseAccounts Fixtures.increaseData 0
              Fixtures.increaseSiblings) as [r|m] eqn:E.
  - split; [vm_compute in E; injection E as <-; reflexivity|].
    split; [vm_compute in E; injection E as <-; reflexivity|].
    exact (proj1 (decoders_take_first_transfers_after_index Fixtures.increaseAccounts
                    Fixtures.increaseData 0 Fixtures.increaseSiblings) r E).
  - vm_compute in E; discriminate E.
Defined.

Lemma decodeOpenPosition_ticks accounts data name o :
  decodeOpenPosition accounts data name = Ok o ->
  field "tickLowerIndex" data = Some (JNum (op_tickUpperIndex o)) /\
  field "tickUpperIndex" data = Some (JNum (op_tickLowerIndex o)).
Proof.
  unfold decodeOpenPosition; intros H; peel H; injection H as <-; simpl.
  unfold numberField in *.
  split.
  - destruct (field "tickLowerIndex" data) as [[]|]; congruence.
  - destruct (field "tickUpperIndex" data) as [[]|]; congruence.
Qed.

(** C10 *)
(** Claim C10: when [decodeTransaction] decodes an [openPosition] or
    [openPositionWithMetadata] instruction, the event's [tickUpperIndex]
    is the instruction data's [tickLowerIndex] and the event's
    [tickLowerIndex] is the data's [tickUpperIndex]: the two bounds are
    swapped. *)
Theorem decoded_open_position_swaps_ticks borshDecode index instructions d o :
  decodeTransaction borshDecode index instructions = Ok d ->
  ix d = openPosition o ->
  exists g accounts data name fields,
    nth_error instructions index = Some g /\
    raw g = PartiallyDecodedInstruction accounts data /\
    borshDecode data = Some (name, fields) /\
    (name = "openPosition" \/ name = "openPositionWithMetadata") /\
    field "tickLowerIndex" fields = Some (JNum (op_tickUpperIndex o)) /\
    field "tickUpperIndex" fields = Some (JNum (op_tickLowerIndex o)).
Proof.
  unfold decodeTransaction; intros H Hix.
  destruct (nth_error instructions index) as [g|] eqn:Eg; cbn [res_bind require] in H;
    [|discriminate H].
  peel H.
  destruct (raw g) as [program parsed|accounts data] eqn:Er; [discriminate H|].
  destruct (borshDecode data) as [[name fields]|] eqn:Eb; cbn [res_bind require] in H;
    [|discriminate H].
  peel H.
  injection H as <-; simpl in Hix; subst.
  match goal with
  | E : require (decodeInstructionMap _ _ _ _ _) _ = Ok _ |- _ =>
      apply require_ok in E; rename E into Em
  end.
  exists g, accounts, data, name, fields.
  do 3 (split; [first [reflexivity | assumption]|]).
  unfold decodeInstructionMap in Em.
  destruct (String.eqb name "openPosition") eqn:N1.
  { injection Em as Em; peel Em; injection Em as ->.
    apply String.eqb_eq in N1; split; [now left|].
    now apply (decodeOpenPosition_ticks accounts fields name). }
  destruct (String.eqb name "openPositionWithMetadata") eqn:N2.
  { injection Em as Em; peel Em; injection Em as ->.
    apply String.eqb_eq in N2; split; [now right|].
    now apply (decodeOpenPosition_ticks accounts fields name). }
  repeat match type of Em with
  | (if ?b then _ else _) = _ => destruct b
  end;
    try discriminate Em; injection Em as Em; peel Em; discriminate Em.
Qed.

(** The [openPosition] fixture at index 0, with [tickLowerIndex = -64]
    and [tickUpperIndex = 64] in its data, decodes to an event with
    [tickUpperIndex = -64] and [tickLowerIndex = 64]. *)
Lemma decoded_open_position_swaps_ticks_witness :
  let o := {| op_whirlpool := "Whirlpool"; op_position := "Position";
              op_positionMint := "PositionMint"; op_owner := "Owner";
              op_tickUpperIndex := -64; op_tickLowerIndex := 64;
              op_rentFee := PAYABLE_RENT_LAMPORTS_WITHOUT_METADATA |} in
  exists g accounts data name fields,
    nth_error [Fixtures.openGathered] 0 = Some g /\
    raw g = PartiallyDecodedInstruction accounts data /\
    Fixtures.borshDecode data = Some (name, fields) /\
    (name = "openPosition" \/ name = "openPositionWithMetadata") /\
    field "tickLowerIndex" fields = Some (JNum (op_tickUpperIndex o)) /\
    field "tickUpperIndex" fields = Some (JNum (op_tickLowerIndex o)).
Proof.
  intros o.
  apply (decoded_open_position_swaps_ticks Fixtures.borshDecode 0 [Fixtures.openGathered]
           {| ix := openPosition o; gathered := Fixtures.openGathered |} o);
    [vm_compute; reflexivity | reflexivity].
Defined.

End DecoderClaims.

(** * Properties of the summary builder *)

Section SummaryProofs.

Import Summary.

Lemma flatMapPositions_app dlq cfq crq args positionMap poolMap tokenMap priceMap l1 l2 :
  fst (flatMapPositions dlq cfq crq args positionMap poolMap tokenMap priceMap (l1 ++ l2))
  = (fst (flatMapPositions dlq cfq crq args positionMap poolMap tokenMap priceMap l1)
     ++ fst (flatMapPositions dlq cfq crq args positionMap poolMap tokenMap priceMap l2))%list.
Proof.
  induction l1 as [|x l1 IH]; simpl; [reflexivity|].
  destruct (analyzeOne dlq cfq crq args positionMap poolMap tokenMap priceMap x) as [s1 g1].
  destruct (flatMapPositions dlq cfq crq args positionMap poolMap tokenMap priceMap (l1 ++ l2))
    as [s2 g2] eqn:E2.
  destruct (flatMapPositions dlq cfq crq args positionMap poolMap tokenMap priceMap l1)
    as [s3 g3] eqn:E3.
  simpl in *; rewrite IH, app_assoc; reflexivity.
Qed.

Lemma analyzePositions_summaries dlq cfq crq args positions positionMap poolMap tokenMap priceMap :
  fst (analyzePositions dlq cfq crq args positions positionMap poolMap tokenMap priceMap)
  = fst (flatMapPositions dlq cfq crq args positionMap poolMap tokenMap priceMap positions).
Proof.
  unfold analyzePositions.
  destruct (flatMapPositions dlq cfq crq args positionMap poolMap tokenMap priceMap positions);
    reflexivity.
Qed.

(** A position whose callback returns no summary is left out of the
    batch, and the summaries of the others are kept in order. *)
Lemma analyzePositions_drop dlq cfq crq args positionMap poolMap tokenMap priceMap
    instructions logs before after :
  analyzeOne dlq cfq crq args positionMap poolMap tokenMap priceMap instructions = ([], logs) ->
  fst (analyzePositions dlq cfq crq args (before ++ instructions :: after)
         positionMap poolMap tokenMap priceMap)
  = (fst (analyzePositions dlq cfq crq args before positionMap poolMap tokenMap priceMap)
     ++ fst (analyzePositions dlq cfq crq args after positionMap poolMap tokenMap priceMap))%list.
Proof.
  intros H.
  rewrite !analyzePositions_summaries, flatMapPositions_app; simpl.
  rewrite H.
  destruct (flatMapPositions dlq cfq crq args positionMap poolMap tokenMap priceMap after);
    reflexivity.
Qed.

Lemma warn_gated args line :
  warn args line = if debug args && negb (quiet args) then [line] else [].
Proof.
  unfold warn, log; destruct (debug args), (quiet args); reflexivity.
Qed.

End SummaryProofs.

Section SummaryClaims.

Import Summary.

(** C2 *)
(** Claim C2: a summary returned by [analyzePosition] has its derived
    fields computed by the formulas: gains = withdrawn + current +
    collected fees + collected rewards + collectible fees + collectible
    rewards + reclaimable rent; losses = deposited + transaction cost +
    paid rent; profit = gains - losses; profitRatio = profit /
    positionSize; forgoneProfit = forgoneValue - depositedValue;
    forgoneProfitRatio = forgoneProfit / positionSize; opportunityCost =
    forgoneProfit - profit; opportunityCostRatio = -opportunityCost /
    positionSize. *)
Theorem analyzePosition_derived_fields dlq cfq crq instructions positionMap poolMap tokenMap
    priceMap after s :
  analyzePosition dlq cfq crq instructions positionMap poolMap tokenMap priceMap = (after, Ok s) ->
  let gains := withdrawnValue s + currentValue s + collectedFeesValue s
               + collectedRewardsValue s + collectibleFeesValue s
               + collectibleRewardsValue s + reclaimableRent s in
  let losses := depositedValue s + transactionCost s + paidRent s in
  profit s == gains - losses /\
  profitRatio s == profit s / positionSize s /\
  forgoneProfit s == forgoneValue s - depositedValue s /\
  forgoneProfitRatio s == forgoneProfit s / positionSize s /\
  opportunityCost s == forgoneProfit s - profit s /\
  opportunityCostRatio s == - opportunityCost s / positionSize s.
Proof.
  unfold analyzePosition; intros H.
  destruct (openAndClose instructions poolMap) as [[[[oi o] ci] wp]|m]; [|discriminate H].
  destruct (Ledger.analyzeInstructions instructions wp tokenMap priceMap) as [srt r].
  injection H as _ H.
  peel H; injection H as <-; simpl.
  repeat split; reflexivity.
Qed.

(** An open at time 500 and an increase of 10 tokens A at price 1 give a
    summary (the position account is not found, so its balances are 0). *)
Lemma analyzePosition_derived_fields_witness :
  match snd (analyzePosition Fixtures.noQuote5 Fixtures.noFeeQuote Fixtures.noRewardQuote
               [Fixtures.openAt 500; Fixtures.increaseAt 100 10000000 0 1000]
               Fixtures.noPosition Fixtures.poolMap Fixtures.tokenMap Fixtures.priceMap) with
  | Ok s =>
      let gains := withdrawnValue s + currentValue s + collectedFeesValue s
                   + collectedRewardsValue s + collectibleFeesValue s
                   + collectibleRewardsValue s + reclaimableRent s in
      let losses := depositedValue s + transactionCost s + paidRent s in
      profit s == gains - losses /\
      profitRatio s == profit s / positionSize s /\
      forgoneProfit s == forgoneValue s - depositedValue s /\
      forgoneProfitRatio s == forgoneProfit s / positionSize s /\
      opportunityCost s == forgoneProfit s - profit s /\
      opportunityCostRatio s == - opportunityCost s / positionSize s
  | Err _ => False
  end.
Proof.
  destruct (analyzePosition Fixtures.noQuote5 Fixtures.noFeeQuote Fixtures.noRewardQuote
              [Fixtures.openAt 500; Fixtures.increaseAt 100 10000000 0 1000]
              Fixtures.noPosition Fixtures.poolMap Fixtures.tokenMap Fixtures.priceMap)
    as [after [s|m]] eqn:E; simpl.
  - exact (analyzePosition_derived_fields Fixtures.noQuote5 Fixtures.noFeeQuote
             Fixtures.noRewardQuote [Fixtures.openAt 500; Fixtures.increaseAt 100 10000000 0 1000]
             Fixtures.noPosition Fixtures.poolMap Fixtures.tokenMap Fixtures.priceMap after s E).
  - vm_compute in E; discriminate E.
Defined.

(** C6 *)
(** Claim C6, as the code has it: when the checks of [analyzePosition]
    pass and the ledger's deposited value is below 1, [analyzePosition]
    fails with "Deposited value to small to accurately analyze" before any
    ratio is computed, and [analyzePositions] leaves the position out of
    the summaries and keeps the other positions' summaries.  The reason
    is written to the terminal only when debug output is on
    ([args.debug] and not [args.quiet]): [warn] logs nothing otherwise. *)
Theorem small_deposit_dropped_warning_gated dlq cfq crq args positionMap poolMap tokenMap
    priceMap instructions oi o ci wp after t before rest :
  openAndClose instructions poolMap = Ok (oi, o, ci, wp) ->
  Ledger.analyzeInstructions instructions wp tokenMap priceMap = (after, Ok t) ->
  Ledger.t_depositedValue t < 1 ->
  analyzePosition dlq cfq crq instructions positionMap poolMap tokenMap priceMap
  = (after, Err "Deposited value to small to accurately analyze") /\
  analyzeOne dlq cfq crq args positionMap poolMap tokenMap priceMap instructions
  = ([],
     if debug args && negb (quiet args) then
       match firstPosition after with
       | Some address =>
           [WarnLine "Failed to analyze position" address
              "Deposited value to small to accurately analyze"]
       | None => []
       end
     else []) /\
  fst (analyzePositions dlq cfq crq args (before ++ instructions :: rest)
         positionMap poolMap tokenMap priceMap)
  = (fst (analyzePositions dlq cfq crq args before positionMap poolMap tokenMap priceMap)
     ++ fst (analyzePositions dlq cfq crq args rest positionMap poolMap tokenMap priceMap))%list.
Proof.
  intros Hoc Hai Hdep.
  assert (Hap : analyzePosition dlq cfq crq instructions positionMap poolMap tokenMap priceMap
                = (after, Err "Deposited value to small to accurately analyze")).
  { unfold analyzePosition; rewrite Hoc, Hai; cbn [res_bind].
    unfold invariant.
    destruct (Qle_bool 1 (Ledger.t_depositedValue t)) eqn:Ele; [|reflexivity].
    apply Qle_bool_iff in Ele; exfalso; apply (Qlt_not_le _ _ Hdep Ele). }
  assert (Hone : analyzeOne dlq cfq crq args positionMap poolMap tokenMap priceMap instructions
                 = ([],
                    if debug args && negb (quiet args) then
                      match firstPosition after with
                      | Some address =>
                          [WarnLine "Failed to analyze position" address
                             "Deposited value to small to accurately analyze"]
                      | None => []
                      end
                    else [])).
  { unfold analyzeOne; rewrite Hap.
    destruct (firstPosition after); [rewrite warn_gated|]; 
      destruct (debug args && negb (quiet args)); reflexivity. }
  split; [exact Hap|]. split; [exact Hone|].
  exact (analyzePositions_drop _ _ _ _ _ _ _ _ _ _ _ _ Hone).
Qed.

(** The hypotheses of [small_deposit_dropped_warning_gated] hold for an
    open at time 500 and a deposit of 0.5 tokens A at price 1, with debug
    output on; the warning names the position. *)
Lemma small_deposit_dropped_warning_gated_witness :
  let args := {| debug := true; quiet := false |} in
  let instructions := [Fixtures.openAt 500; Fixtures.increaseAt 100 500000 0 1000] in
  match Ledger.analyzeInstructions instructions Fixtures.pool Fixtures.tokenMap Fixtures.priceMap with
  | (after, Ok t) =>
      analyzePosition Fixtures.noQuote5 Fixtures.noFeeQuote Fixtures.noRewardQuote instructions
        Fixtures.noPosition Fixtures.poolMap Fixtures.tokenMap Fixtures.priceMap
      = (after, Err "Deposited value to small to accurately analyze") /\
      analyzeOne Fixtures.noQuote5 Fixtures.noFeeQuote Fixtures.noRewardQuote args
        Fixtures.noPosition Fixtures.poolMap Fixtures.tokenMap Fixtures.priceMap instructions
      = ([],
         if debug args && negb (quiet args) then
           match firstPosition after with
           | Some address =>
               [WarnLine "Failed to analyze position" address
                  "Deposited value to small to accurately analyze"]
           | None => []
           end
         else []) /\
      fst (analyzePositions Fixtures.noQuote5 Fixtures.noFeeQuote Fixtures.noRewardQuote args
             ([] ++ instructions :: [])
             Fixtures.noPosition Fixtures.poolMap Fixtures.tokenMap Fixtures.priceMap)
      = (fst (analyzePositions Fixtures.noQuote5 Fixtures.noFeeQuote Fixtures.noRewardQuote args
                [] Fixtures.noPosition Fixtures.poolMap Fixtures.tokenMap Fixtures.priceMap)
         ++ fst (analyzePositions Fixtures.noQuote5 Fixtures.noFeeQuote Fixtures.noRewardQuote
                   args [] Fixtures.noPosition Fixtures.poolMap Fixtures.tokenMap
                   Fixtures.priceMap))%list
  | (_, Err _) => False
  end.
Proof.
  intros args instructions.
  destruct (Ledger.analyzeInstructions instructions Fixtures.pool Fixtures.tokenMap
              Fixtures.priceMap) as [after [t|m]] eqn:E.
  - apply (small_deposit_dropped_warning_gated Fixtures.noQuote5 Fixtures.noFeeQuote
             Fixtures.noRewardQuote args Fixtures.noPosition Fixtures.poolMap Fixtures.tokenMap
             Fixtures.priceMap instructions (Fixtures.openAt 500) Fixtures.openIx None
             Fixtures.pool after t [] []).
    + reflexivity.
    + exact E.
    + vm_compute in E; injection E as _ <-; vm_compute; reflexivity.
  - vm_compute in E; discriminate E.
Defined.

(** Counterexample to claim C6: with the default flags (no [--debug]), a
    position with a deposit of 0.5 is rejected and left out of the
    summaries, but no reason is logged: [analyzePositions] writes no
    line. *)
Lemma small_deposit_dropped_without_log :
  snd (analyzePosition Fixtures.noQuote5 Fixtures.noFeeQuote Fixtures.noRewardQuote
         [Fixtures.openAt 500; Fixtures.increaseAt 100 500000 0 1000]
         Fixtures.noPosition Fixtures.poolMap Fixtures.tokenMap Fixtures.priceMap)
  = Err "Deposited value to small to accurately analyze" /\
  analyzePositions Fixtures.noQuote5 Fixtures.noFeeQuote Fixtures.noRewardQuote
    Fixtures.defaultArgs [[Fixtures.openAt 500; Fixtures.increaseAt 100 500000 0 1000]]
    Fixtures.noPosition Fixtures.poolMap Fixtures.tokenMap Fixtures.priceMap
  = ([], []).
Proof.
  split; vm_compute; reflexivity.
Qed.

(** C7 *)
(** Claim C7, as the code has it: when a position's instructions hold no
    [openPosition], more than one, or more than one [closePosition],
    [analyzePosition] fails (before sorting them) and [analyzePositions]
    leaves the position out of the summaries and keeps the other
    positions' summaries.  The warning naming the position is written
    only when debug output is on ([args.debug] and not [args.quiet]) and
    the list is not empty. *)
Theorem malformed_sequence_dropped_warning_gated dlq cfq crq args positionMap poolMap tokenMap
    priceMap instructions before rest :
  (length (filter isOpenPosition instructions) <> 1%nat \/
   (1 < length (filter isClosePosition instructions))%nat) ->
  exists msg,
    analyzePosition dlq cfq crq instructions positionMap poolMap tokenMap priceMap
    = (instructions, Err msg) /\
    analyzeOne dlq cfq crq args positionMap poolMap tokenMap priceMap instructions
    = ([],
       if debug args && negb (quiet args) then
         match firstPosition instructions with
         | Some address => [WarnLine "Failed to analyze position" address msg]
         | None => []
         end
       else []) /\
    fst (analyzePositions dlq cfq crq args (before ++ instructions :: rest)
           positionMap poolMap tokenMap priceMap)
    = (fst (analyzePositions dlq cfq crq args before positionMap poolMap tokenMap priceMap)
       ++ fst (analyzePositions dlq cfq crq args rest positionMap poolMap tokenMap priceMap))%list.
Proof.
  intros Hbad.
  assert (Hoc : exists msg, openAndClose instructions poolMap = Err msg).
  { unfold openAndClose, invariant.
    destruct (Nat.eqb (length (filter isOpenPosition instructions)) 1) eqn:E1;
      cbn [res_bind]; [|eauto].
    apply Nat.eqb_eq in E1.
    destruct Hbad as [Hbad|Hbad]; [contradiction|].
    destruct (hd_error (filter isOpenPosition instructions)) as [oi|]; cbn [res_bind require];
      [|eauto].
    destruct (ix oi); cbn [res_bind]; try eauto.
    destruct (Nat.leb (length (filter isClosePosition instructions)) 1) eqn:E2.
    - apply Nat.leb_le in E2; lia.
    - cbn [res_bind]; eauto. }
  destruct Hoc as [msg Hoc].
  exists msg.
  assert (Hap : analyzePosition dlq cfq crq instructions positionMap poolMap tokenMap priceMap
                = (instructions, Err msg))
    by (unfold analyzePosition; rewrite Hoc; reflexivity).
  assert (Hone : analyzeOne dlq cfq crq args positionMap poolMap tokenMap priceMap instructions
                 = ([],
                    if debug args && negb (quiet args) then
                      match firstPosition instructions with
                      | Some address => [WarnLine "Failed to analyze position" address msg]
                      | None => []
                      end
                    else [])).
  { unfold analyzeOne; rewrite Hap.
    destruct (firstPosition instructions); [rewrite warn_gated|];
      destruct (debug args && negb (quiet args)); reflexivity. }
  split; [exact Hap|]. split; [exact Hone|].
  exact (analyzePositions_drop _ _ _ _ _ _ _ _ _ _ _ _ Hone).
Qed.

(** The hypothesis of [malformed_sequence_dropped_warning_gated] holds
    for a position with an increase and no open, with debug output on;
    the message is "No open instruction found.". *)
Lemma malformed_sequence_dropped_warning_gated_witness :
  let args := {| debug := true; quiet := false |} in
  let instructions := [Fixtures.increaseAt 100 10000000 0 1000] in
  exists msg,
    analyzePosition Fixtures.noQuote5 Fixtures.noFeeQuote Fixtures.noRewardQuote instructions
      Fixtures.noPosition Fixtures.poolMap Fixtures.tokenMap Fixtures.priceMap
    = (instructions, Err msg) /\
    analyzeOne Fixtures.noQuote5 Fixtures.noFeeQuote Fixtures.noRewardQuote args
      Fixtures.noPosition Fixtures.poolMap Fixtures.tokenMap Fixtures.priceMap instructions
    = ([],
       if debug args && negb (quiet args) then
         match firstPosition instructions with
         | Some address => [WarnLine "Failed to analyze position" address msg]
         | None => []
         end
       else []) /\
    fst (analyzePositions Fixtures.noQuote5 Fixtures.noFeeQuote Fixtures.noRewardQuote args
           ([[Fixtures.openAt 500; Fixtures.increaseAt 100 10000000 0 1000]] ++ instructions :: [])
           Fixtures.noPosition Fixtures.poolMap Fixtures.tokenMap Fixtures.priceMap)
    = (fst (analyzePositions Fixtures.noQuote5 Fixtures.noFeeQuote Fixtures.noRewardQuote args
              [[Fixtures.openAt 500; Fixtures.increaseAt 100 10000000 0 1000]]
              Fixtures.noPosition Fixtures.poolMap Fixtures.tokenMap Fixtures.priceMap)
       ++ fst (analyzePositions Fixtures.noQuote5 Fixtures.noFeeQuote Fixtures.noRewardQuote
                 args [] Fixtures.noPosition Fixtures.poolMap Fixtures.tokenMap
                 Fixtures.priceMap))%list.
Proof.
  intros args instructions.
  apply (malformed_sequence_dropped_warning_gated Fixtures.noQuote5 Fixtures.noFeeQuote
           Fixtures.noRewardQuote args Fixtures.noPosition Fixtures.poolMap Fixtures.tokenMap
           Fixtures.priceMap instructions
           [[Fixtures.openAt 500; Fixtures.increaseAt 100 10000000 0 1000]] []).
  left; simpl; discriminate.
Defined.

(** Counterexample to claim C7: with the default flags (no [--debug]), a
    position with no [openPosition] is left out of the summaries, but no
    warning identifies it: [analyzePositions] writes no line. *)
Lemma malformed_sequence_dropped_without_warning :
  snd (analyzePosition Fixtures.noQuote5 Fixtures.noFeeQuote Fixtures.noRewardQuote
         [Fixtures.increaseAt 100 10000000 0 1000]
         Fixtures.noPosition Fixtures.poolMap Fixtures.tokenMap Fixtures.priceMap)
  = Err "No open instruction found." /\
  analyzePositions Fixtures.noQuote5 Fixtures.noFeeQuote Fixtures.noRewardQuote
    Fixtures.defaultArgs [[Fixtures.increaseAt 100 10000000 0 1000]]
    Fixtures.noPosition Fixtures.poolMap Fixtures.tokenMap Fixtures.priceMap
  = ([], []).
Proof.
  split; vm_compute; reflexivity.
Qed.

End SummaryClaims.

(** * Further properties of the position ledger *)

Section LedgerFacts.

Import Ledger.

Lemma step_inv tokenMap priceMap solT tA tB st d st' :
  step tokenMap priceMap solT tA tB st d = Ok st' ->
  priceMap (priceKey NATIVE_MINT (ixBlockTime d)) = Some (solPriceAt priceMap d) /\
  priceMap (priceKey (mint tA) (ixBlockTime d)) = Some (priceAt priceMap (mint tA) d) /\
  priceMap (priceKey (mint tB) (ixBlockTime d)) = Some (priceAt priceMap (mint tB) d) /\
  applyEvent tokenMap priceMap solT tA tB st d (solPriceAt priceMap d)
    (priceAt priceMap (mint tA) d) (priceAt priceMap (mint tB) d) = Ok st'.
Proof.
  unfold step; intros H; peel H.
  repeat match goal with Hx : require _ _ = Ok _ |- _ => apply require_ok in Hx end.
  unfold solPriceAt, priceAt.
  repeat match goal with Hx : priceMap _ = Some _ |- _ => rewrite Hx; clear Hx end.
  auto.
Qed.


Lemma step_totals tokenMap priceMap solT tA tB st d st' :
  step tokenMap priceMap solT tA tB st d = Ok st' ->
  depositedValue st' == depositedValue st + depositOf tA tB priceMap d /\
  withdrawnValue st' == withdrawnValue st + withdrawalOf tA tB priceMap d /\
  collectedFeesValue st' == collectedFeesValue st + feesOf tA tB priceMap d /\
  collectedRewardsValue st' == collectedRewardsValue st + rewardOf tokenMap priceMap d /\
  transactionCosts st'
  = mapSet (signature (gathered d)) (feeOf solT priceMap d) (transactionCosts st).
Proof.
  intros H; apply step_inv in H; destruct H as (_ & _ & _ & H).
  unfold applyEvent in H; unfold depositOf, withdrawalOf, feesOf, rewardOf.
  destruct (ix d) eqn:Ed.
  1-4, 6: injection H as <-; simpl; repeat split; try ring; reflexivity.
  peel H; injection H as <-; simpl.
  repeat match goal with Hx : require _ _ = Ok _ |- _ => apply require_ok in Hx end.
  match goal with Hx : tokenMap _ = Some _ |- _ => rewrite Hx end.
  unfold priceAt.
  match goal with Hx : priceMap _ = Some _ |- _ => rewrite Hx end.
  repeat split; try ring; reflexivity.
Qed.

Lemma run_totals tokenMap priceMap solT tA tB l : forall st st',
  runInstructions tokenMap priceMap solT tA tB st l = Ok st' ->
  depositedValue st' == depositedValue st + qsum (depositOf tA tB priceMap) l /\
  withdrawnValue st' == withdrawnValue st + qsum (withdrawalOf tA tB priceMap) l /\
  collectedFeesValue st' == collectedFeesValue st + qsum (feesOf tA tB priceMap) l /\
  collectedRewardsValue st' == collectedRewardsValue st + qsum (rewardOf tokenMap priceMap) l /\
  transactionCosts st'
  = fold_left (fun m d => mapSet (signature (gathered d)) (feeOf solT priceMap d) m) l
              (transactionCosts st).
Proof.
  induction l as [|d l IH]; intros st st' H; simpl in *.
  - injection H as <-; repeat split; try ring; reflexivity.
  - peel H.
    match goal with Hs : step _ _ _ _ _ _ _ = Ok _ |- _ =>
      destruct (step_totals _ _ _ _ _ _ _ _ Hs) as (H1 & H2 & H3 & H4 & H5) end.
    destruct (IH _ _ H) as (I1 & I2 & I3 & I4 & I5).
    rewrite I1, I2, I3, I4, I5, H1, H2, H3, H4, H5.
    repeat split; try ring; reflexivity.
Qed.

Lemma analyzeInstructions_ok instructions wd tokenMap priceMap after t :
  analyzeInstructions instructions wd tokenMap priceMap = (after, Ok t) ->
  after = sortByBlockTime instructions /\
  exists solT tA tB st cA cB,
    tokenMap NATIVE_MINT = Some solT /\
    tokenMap (tokenMintA wd) = Some tA /\
    tokenMap (tokenMintB wd) = Some tB /\
    runInstructions tokenMap priceMap solT tA tB initState (sortByBlockTime instructions) = Ok st /\
    priceMap (KeyCurrent (mint tA)) = Some cA /\
    priceMap (KeyCurrent (mint tB)) = Some cB /\
    t = {| t_depositedValue := depositedValue st;
           t_withdrawnValue := withdrawnValue st;
           t_forgoneValue := forgoneValue st
                             + (0 + rollingTokenAAmount st * cA + rollingTokenBAmount st * cB);
           t_positionSize := positionSize st;
           t_collectedFeesValue := collectedFeesValue st;
           t_collectedRewardsValue := collectedRewardsValue st;
           t_paidRent := paidRent st;
           t_transactionCost :=
             fold_left (fun acc fee => acc + snd fee) (transactionCosts st) 0 |}.
Proof.
  unfold analyzeInstructions; intros H; injection H as Ha H; split; [now rewrite Ha|].
  destruct (ledgerLoop instructions wd tokenMap priceMap) as [[[tA tB] st]|m] eqn:Eloop;
    cbn [res_bind] in H; [|discriminate H].
  peel H; injection H as <-.
  unfold ledgerLoop in Eloop; peel Eloop; injection Eloop as <- <- <-.
  repeat match goal with Hx : require _ _ = Ok _ |- _ => apply require_ok in Hx end.
  do 6 eexists; repeat split; eassumption.
Qed.

End LedgerFacts.

(** * JS [Map] and [Set] kept as insertion-ordered lists *)

Section JsCollections.

Import Batch.

Context {V : Type}.

Lemma jsMapGet_set (k k0 : string) (v : V) m :
  jsMapGet k (jsMapSet k0 v m) = if String.eqb k0 k then Some v else jsMapGet k m.
Proof.
  induction m as [|[k' v'] m IH]; simpl.
  - now rewrite String.eqb_sym.
  - destruct (String.eqb k0 k') eqn:E; simpl.
    + apply String.eqb_eq in E; subst k'.
      rewrite (String.eqb_sym k k0); destruct (String.eqb k0 k); reflexivity.
    + rewrite IH; destruct (String.eqb k0 k) eqn:E2; [|reflexivity].
      apply String.eqb_eq in E2; subst k.
      rewrite E; reflexivity.
Qed.

Lemma keys_jsMapSet (k : string) (v : V) m :
  map fst (jsMapSet k v m) = jsSetAdd (map fst m) k.
Proof.
  unfold jsSetAdd; induction m as [|[k' v'] m IH]; simpl; [reflexivity|].
  destruct (String.eqb k k') eqn:E; simpl.
  - apply String.eqb_eq in E; subst k'; reflexivity.
  - rewrite IH; destruct (existsb (String.eqb k) (map fst m)); reflexivity.
Qed.

Lemma jsSetAdd_In xs k x : In x (jsSetAdd xs k) <-> In x xs \/ x = k.
Proof.
  unfold jsSetAdd; destruct (existsb (String.eqb k) xs) eqn:E.
  - apply existsb_exists in E; destruct E as (y & Hy & Hk); apply String.eqb_eq in Hk; subst y.
    split; [now left|intros [H | ->]; auto].
  - rewrite in_app_iff; simpl; intuition.
Qed.

Lemma jsSetAdd_NoDup xs k : NoDup xs -> NoDup (jsSetAdd xs k).
Proof.
  unfold jsSetAdd; intros H; destruct (existsb (String.eqb k) xs) eqn:E; [exact H|].
  apply (Permutation_NoDup (Permutation_cons_append xs k)); constructor; [|exact H].
  intros Hin; assert (existsb (String.eqb k) xs = true) as E'
    by (apply existsb_exists; exists k; split; [exact Hin|apply String.eqb_refl]).
  congruence.
Qed.

Lemma fold_jsSetAdd_In xs : forall acc x,
  In x (fold_left jsSetAdd xs acc) <-> In x acc \/ In x xs.
Proof.
  induction xs as [|k xs IH]; intros acc x; simpl; [tauto|].
  rewrite IH, jsSetAdd_In; intuition.
Qed.

Lemma fold_jsSetAdd_NoDup xs : forall acc, NoDup acc -> NoDup (fold_left jsSetAdd xs acc).
Proof.
  induction xs as [|k xs IH]; intros acc H; simpl; [exact H|].
  apply IH, jsSetAdd_NoDup, H.
Qed.

Lemma jsSetOf_In xs x : In x (jsSetOf xs) <-> In x xs.
Proof. unfold jsSetOf; rewrite fold_jsSetAdd_In; simpl; tauto. Qed.

Lemma jsSetOf_NoDup xs : NoDup (jsSetOf xs).
Proof. apply fold_jsSetAdd_NoDup; constructor. Qed.

Lemma jsMapGet_In (k : string) (m : list (string * V)) :
  jsMapGet k m <> None -> In k (map fst m).
Proof.
  induction m as [|[k' v'] m IH]; simpl; [tauto|].
  destruct (String.eqb k k') eqn:E; [left; symmetry; now apply String.eqb_eq|].
  intros H; right; now apply IH.
Qed.

Lemma jsMapGet_first (k : string) (m : list (string * V)) :
  ~ In k (map fst m) -> jsMapGet k m = None.
Proof.
  intros H; destruct (jsMapGet k m) eqn:E; [|reflexivity].
  exfalso; apply H, jsMapGet_In; congruence.
Qed.

Lemma values_by_keys (d : V) (m : list (string * V)) :
  NoDup (map fst m) ->
  map snd m = map (fun k => match jsMapGet k m with Some v => v | None => d end) (map fst m).
Proof.
  induction m as [|[k v] m IH]; intros H; simpl; [reflexivity|].
  inversion H as [|? ? Hk Hnd]; subst.
  rewrite String.eqb_refl, (IH Hnd); f_equal.
  apply map_ext_in; intros k' Hk'.
  destruct (String.eqb k' k) eqn:E; [|reflexivity].
  apply String.eqb_eq in E; subst k'; contradiction.
Qed.

End JsCollections.

Section LedgerCosts.

Import Ledger Batch.

Lemma mapSet_jsMapSet k v m : mapSet k v m = jsMapSet k v m.
Proof.
  induction m as [|[k' v'] m IH]; simpl; [reflexivity|].
  now rewrite IH.
Qed.

Lemma fold_left_snd_sum (m : list (string * Q)) : forall a,
  fold_left (fun acc fee => acc + snd fee) m a = fold_left Qplus (map snd m) a.
Proof. induction m as [|e m IH]; intros a; simpl; [reflexivity|apply IH]. Qed.

Section Costs.

Variable solT : Token.
Variable priceMap : PriceKey -> option Q.

Let setFee (m : list (string * Q)) (d : DecodedInstruction) :=
  mapSet (signature (gathered d)) (feeOf solT priceMap d) m.

Lemma keys_fold_setFee l : forall m,
  map fst (fold_left setFee l m)
  = fold_left jsSetAdd (map (fun d => signature (gathered d)) l) (map fst m).
Proof.
  induction l as [|d l IH]; intros m; simpl; [reflexivity|].
  rewrite IH; unfold setFee; now rewrite mapSet_jsMapSet, keys_jsMapSet.
Qed.

Lemma get_fold_setFee k l : forall m,
  jsMapGet k (fold_left setFee l m)
  = fold_left (fun o d => if String.eqb (signature (gathered d)) k
                          then Some (feeOf solT priceMap d) else o) l (jsMapGet k m).
Proof.
  induction l as [|d l IH]; intros m; simpl; [reflexivity|].
  rewrite IH; unfold setFee; now rewrite mapSet_jsMapSet, jsMapGet_set.
Qed.

Lemma fold_lastFee_some k l : forall a,
  fold_left (fun o d => if String.eqb (signature (gathered d)) k
                        then Some (feeOf solT priceMap d) else o) l (Some a)
  = Some (fold_left (fun acc d => if String.eqb (signature (gathered d)) k
                                  then feeOf solT priceMap d else acc) l a).
Proof.
  induction l as [|d l IH]; intros a; simpl; [reflexivity|].
  destruct (String.eqb (signature (gathered d)) k); apply IH.
Qed.

Lemma fold_lastFee_none k l :
  fold_left (fun o d => if String.eqb (signature (gathered d)) k
                        then Some (feeOf solT priceMap d) else o) l None
  = if existsb (fun d => String.eqb (signature (gathered d)) k) l
    then Some (lastFee solT priceMap l k) else None.
Proof.
  unfold lastFee; induction l as [|d l IH]; simpl; [reflexivity|].
  destruct (String.eqb (signature (gathered d)) k); simpl; [apply fold_lastFee_some|apply IH].
Qed.

End Costs.

End LedgerCosts.

Section LedgerCostTheorem.

Import Ledger Batch.

(** X2: the transaction cost that analyzeInstructions returns counts every
    transaction signature once: it is the sum, over the distinct signatures of
    the sorted instructions (in order of first occurrence), of the SOL fee
    valued at the last sorted instruction carrying that signature. *)
Theorem analyzeInstructions_transactionCost_per_signature instructions wd tokenMap priceMap
    after t solT :
  tokenMap NATIVE_MINT = Some solT ->
  analyzeInstructions instructions wd tokenMap priceMap = (after, Ok t) ->
  t_transactionCost t
  = fold_left Qplus
      (map (lastFee solT priceMap after)
           (jsSetOf (map (fun d => signature (gathered d)) after))) 0.
Proof.
  intros HS H.
  destruct (analyzeInstructions_ok _ _ _ _ _ _ H)
    as (-> & solT' & tA & tB & st & cA & cB & HS' & _ & _ & Hrun & _ & _ & ->).
  rewrite HS in HS'; injection HS' as <-.
  destruct (run_totals _ _ _ _ _ _ _ _ Hrun) as (_ & _ & _ & _ & Hc).
  cbn [t_transactionCost]; rewrite fold_left_snd_sum.
  rewrite (values_by_keys 0)
    by (rewrite Hc, keys_fold_setFee; apply fold_jsSetAdd_NoDup; constructor).
  rewrite Hc, keys_fold_setFee; cbn [initState transactionCosts map].
  f_equal; apply map_ext_in; intros k Hk.
  change (fold_left jsSetAdd ?x []) with (jsSetOf x) in Hk.
  rewrite get_fold_setFee; cbn [jsMapGet]; rewrite fold_lastFee_none.
  apply jsSetOf_In, in_map_iff in Hk; destruct Hk as (d & Hd & Hin).
  replace (existsb _ _) with true; [reflexivity|].
  symmetry; apply existsb_exists; exists d; split; [exact Hin|].
  now apply String.eqb_eq.
Qed.

(** The hypotheses of [analyzeInstructions_transactionCost_per_signature] hold
    for two instructions of one transaction (an increase and a close at time
    1000) and one of another. *)
Lemma analyzeInstructions_transactionCost_per_signature_witness :
  let l := [Fixtures.increaseAt 100 10000000 0 1000;
            Fixtures.decreaseAt 40 4000000 0 2000;
            {| ix := closePosition (Fixtures.closeIx PAYABLE_RENT_LAMPORTS_WITHOUT_METADATA);
               gathered := Fixtures.gatheredAt "sigIncrease" 1000 |}] in
  match analyzeInstructions l Fixtures.pool Fixtures.tokenMap Fixtures.priceMap with
  | (after, Ok t) =>
      t_transactionCost t
      = fold_left Qplus
          (map (lastFee Fixtures.solToken Fixtures.priceMap after)
               (jsSetOf (map (fun d => signature (gathered d)) after))) 0
  | (_, Err _) => False
  end.
Proof.
  intros l.
  destruct (analyzeInstructions l Fixtures.pool Fixtures.tokenMap Fixtures.priceMap)
    as [after [t|m]] eqn:E.
  - apply (analyzeInstructions_transactionCost_per_signature l Fixtures.pool Fixtures.tokenMap
             Fixtures.priceMap after t Fixtures.solToken); [reflexivity|exact E].
  - vm_compute in E; discriminate E.
Defined.

End LedgerCostTheorem.

Section LedgerLookups.

Import Ledger.

Lemma step_needs tokenMap priceMap solT tA tB st d st' :
  step tokenMap priceMap solT tA tB st d = Ok st' ->
  eventPricesFound tokenMap priceMap tA tB d.
Proof.
  intros H; destruct (step_inv _ _ _ _ _ _ _ _ H) as (H1 & H2 & H3 & H4).
  unfold eventPricesFound; rewrite H1, H2, H3.
  repeat split; try discriminate.
  unfold applyEvent in H4; destruct (ix d); try exact I.
  peel H4.
  repeat match goal with Hx : require _ _ = Ok _ |- _ => apply require_ok in Hx end.
  match goal with Hx : tokenMap _ = Some _ |- _ => rewrite Hx end.
  match goal with Hx : priceMap _ = Some _ |- _ => rewrite Hx end.
  discriminate.
Qed.

Lemma step_found tokenMap priceMap solT tA tB st d :
  eventPricesFound tokenMap priceMap tA tB d ->
  exists st', step tokenMap priceMap solT tA tB st d = Ok st'.
Proof.
  unfold eventPricesFound, step; intros (H1 & H2 & H3 & H4).
  destruct (priceMap (priceKey NATIVE_MINT (ixBlockTime d))); [|congruence].
  destruct (priceMap (priceKey (mint tA) (ixBlockTime d))); [|congruence].
  destruct (priceMap (priceKey (mint tB) (ixBlockTime d))); [|congruence].
  cbn [require res_bind]; unfold applyEvent.
  destruct (ix d); try (eexists; reflexivity).
  destruct (tokenMap (rewardMint c)); [|contradiction].
  cbn [require res_bind].
  destruct (priceMap (priceKey (mint t) (ixBlockTime d))); [|congruence].
  eexists; reflexivity.
Qed.

Lemma run_needs tokenMap priceMap solT tA tB l : forall st st',
  runInstructions tokenMap priceMap solT tA tB st l = Ok st' ->
  Forall (eventPricesFound tokenMap priceMap tA tB) l.
Proof.
  induction l as [|d l IH]; intros st st' H; simpl in H; [constructor|].
  peel H; constructor; [eapply step_needs; eassumption|eapply IH; eassumption].
Qed.

Lemma run_found tokenMap priceMap solT tA tB l : forall st,
  Forall (eventPricesFound tokenMap priceMap tA tB) l ->
  exists st', runInstructions tokenMap priceMap solT tA tB st l = Ok st'.
Proof.
  induction l as [|d l IH]; intros st H; simpl; [eexists; reflexivity|].
  inversion H as [|? ? Hd Hl]; subst.
  destruct (step_found _ _ solT _ _ st _ Hd) as [st1 E]; rewrite E; cbn [res_bind].
  apply IH, Hl.
Qed.

Lemma Forall_perm_iff {A : Type} (P : A -> Prop) l l' :
  Permutation l l' -> Forall P l <-> Forall P l'.
Proof.
  intros Hp; rewrite !Forall_forall; split; intros H x Hx; apply H.
  - eapply Permutation_in; [symmetry; exact Hp|exact Hx].
  - eapply Permutation_in; [exact Hp|exact Hx].
Qed.

(** X3: analyzeInstructions returns a result exactly when every lookup it
    makes succeeds: the SOL, token A and token B tokens, the SOL, token A and
    token B prices at the block time of every instruction, the reward token
    and its price for every reward collection, and the current prices of
    tokens A and B; a single missing one makes it fail. *)
Theorem analyzeInstructions_ok_iff_lookups instructions wd tokenMap priceMap :
  (exists t, snd (analyzeInstructions instructions wd tokenMap priceMap) = Ok t) <->
  exists solT tA tB,
    tokenMap NATIVE_MINT = Some solT /\
    tokenMap (tokenMintA wd) = Some tA /\
    tokenMap (tokenMintB wd) = Some tB /\
    Forall (eventPricesFound tokenMap priceMap tA tB) instructions /\
    priceMap (KeyCurrent (mint tA)) <> None /\
    priceMap (KeyCurrent (mint tB)) <> None.
Proof.
  split.
  - intros [t Ht].
    destruct (analyzeInstructions instructions wd tokenMap priceMap) as [after r] eqn:E.
    simpl in Ht; subst r.
    destruct (analyzeInstructions_ok _ _ _ _ _ _ E)
      as (_ & solT & tA & tB & st & cA & cB & HS & HA & HB & Hrun & HcA & HcB & _).
    exists solT, tA, tB; repeat split; try assumption; try congruence.
    apply (Forall_perm_iff _ _ _ (sortByBlockTime_perm instructions)).
    eapply run_needs; exact Hrun.
  - intros (solT & tA & tB & HS & HA & HB & Hall & HcA & HcB).
    apply (Forall_perm_iff _ _ _ (sortByBlockTime_perm instructions)) in Hall.
    destruct (run_found _ _ solT _ _ _ initState Hall) as [st Hrun].
    unfold analyzeInstructions, ledgerLoop; cbn [snd].
    rewrite HS, HA, HB; cbn [require res_bind]; rewrite Hrun; cbn [res_bind].
    destruct (priceMap (KeyCurrent (mint tA))); [|congruence].
    destruct (priceMap (KeyCurrent (mint tB))); [|congruence].
    eexists; reflexivity.
Qed.

(** X4: with no instructions, analyzeInstructions leaves the empty array as
    it is and, once the SOL, token A and token B tokens and the current
    prices of tokens A and B are found, returns all totals zero. *)
Theorem analyzeInstructions_empty wd tokenMap priceMap solT tA tB cA cB :
  tokenMap NATIVE_MINT = Some solT ->
  tokenMap (tokenMintA wd) = Some tA ->
  tokenMap (tokenMintB wd) = Some tB ->
  priceMap (KeyCurrent (mint tA)) = Some cA ->
  priceMap (KeyCurrent (mint tB)) = Some cB ->
  exists t,
    analyzeInstructions [] wd tokenMap priceMap = ([], Ok t) /\
    t_depositedValue t == 0 /\ t_withdrawnValue t == 0 /\ t_forgoneValue t == 0 /\
    t_positionSize t == 0 /\ t_collectedFeesValue t == 0 /\
    t_collectedRewardsValue t == 0 /\ t_paidRent t == 0 /\ t_transactionCost t == 0.
Proof.
  intros HS HA HB HcA HcB.
  unfold analyzeInstructions, ledgerLoop.
  rewrite HS, HA, HB; cbn [require res_bind sortByBlockTime fold_left runInstructions].
  rewrite HcA, HcB; cbn [require res_bind].
  eexists; split; [reflexivity|]; simpl; repeat split; ring.
Qed.

(** The hypotheses of [analyzeInstructions_empty] hold for the pool of token A
    and token B with their current prices. *)
Lemma analyzeInstructions_empty_witness :
  exists t,
    analyzeInstructions [] Fixtures.pool Fixtures.tokenMap Fixtures.priceMap = ([], Ok t) /\
    t_depositedValue t == 0 /\ t_withdrawnValue t == 0 /\ t_forgoneValue t == 0 /\
    t_positionSize t == 0 /\ t_collectedFeesValue t == 0 /\
    t_collectedRewardsValue t == 0 /\ t_paidRent t == 0 /\ t_transactionCost t == 0.
Proof.
  apply (analyzeInstructions_empty Fixtures.pool Fixtures.tokenMap Fixtures.priceMap
           Fixtures.solToken Fixtures.tokenA Fixtures.tokenB (11 # 10) 1);
    reflexivity.
Defined.

End LedgerLookups.

Section LedgerPositionSize.

Import Ledger.

Local Open Scope list_scope.






End LedgerPositionSize.

Section LedgerPositionSizeTheorem.

Import Ledger.

Local Open Scope list_scope.



End LedgerPositionSizeTheorem.

Section LedgerOrder.

Import Ledger.

Let timeLe (a b : DecodedInstruction) : Prop := (ixBlockTime a <= ixBlockTime b)%Z.

Lemma insertByTime_hd y x l :
  HdRel timeLe y l -> timeLe y x -> HdRel timeLe y (insertByTime x l).
Proof.
  intros Hl Hx; destruct l as [|z l]; simpl; [constructor; exact Hx|].
  destruct (Z.ltb (ixBlockTime x) (ixBlockTime z)); constructor; [exact Hx|].
  inversion Hl; assumption.
Qed.

Lemma insertByTime_sorted x l : Sorted timeLe l -> Sorted timeLe (insertByTime x l).
Proof.
  induction l as [|y l IH]; intros H; simpl; [repeat constructor|].
  destruct (Z.ltb (ixBlockTime x) (ixBlockTime y)) eqn:E.
  - apply Z.ltb_lt in E; constructor; [exact H|constructor; unfold timeLe; lia].
  - apply Z.ltb_ge in E; inversion H as [|? ? Hs Hh]; subst.
    constructor; [apply IH, Hs|apply insertByTime_hd; [exact Hh|unfold timeLe; lia]].
Qed.

Lemma sortByBlockTime_sorted l : StronglySorted timeLe (sortByBlockTime l).
Proof.
  apply Sorted_StronglySorted; [unfold Relations_1.Transitive, timeLe; intros; lia|].
  unfold sortByBlockTime.
  assert (Hgen : forall acc, Sorted timeLe acc ->
                   Sorted timeLe (fold_left (fun acc x => insertByTime x acc) l acc)).
  { induction l as [|x l IH]; intros acc H; simpl; [exact H|].
    apply IH, insertByTime_sorted, H. }
  apply Hgen; constructor.
Qed.

Lemma sorted_perm_unique l1 : forall l2,
  StronglySorted timeLe l1 -> StronglySorted timeLe l2 -> Permutation l1 l2 ->
  NoDup (map ixBlockTime l1) -> l1 = l2.
Proof.
  induction l1 as [|a l1 IH]; intros l2 H1 H2 Hp Hnd.
  - symmetry; apply Permutation_nil, Hp.
  - destruct l2 as [|b l2]; [apply Permutation_sym, Permutation_nil in Hp; discriminate Hp|].
    inversion H1 as [|? ? S1 F1]; inversion H2 as [|? ? S2 F2]; subst.
    simpl in Hnd; inversion Hnd as [|? ? Ha Hnd']; subst.
    assert (a = b) as <-.
    { destruct (Permutation_in a Hp (in_eq a l1)) as [->|Ha2]; [reflexivity|].
      destruct (Permutation_in b (Permutation_sym Hp) (in_eq b l2)) as [Hab|Hb1];
        [exact Hab|].
      rewrite Forall_forall in F1, F2.
      specialize (F1 b Hb1); specialize (F2 a Ha2); unfold timeLe in F1, F2.
      exfalso; apply Ha; apply in_map_iff; exists b; split; [lia|exact Hb1]. }
    f_equal; apply IH; auto.
    eapply Permutation_cons_inv; exact Hp.
Qed.

Lemma sortByBlockTime_perm_eq l1 l2 :
  Permutation l1 l2 -> NoDup (map ixBlockTime l1) ->
  sortByBlockTime l1 = sortByBlockTime l2.
Proof.
  intros Hp Hnd; apply sorted_perm_unique; try apply sortByBlockTime_sorted.
  - eapply Permutation_trans; [apply Permutation_sym, sortByBlockTime_perm|].
    eapply Permutation_trans; [exact Hp|apply sortByBlockTime_perm].
  - eapply Permutation_NoDup; [apply Permutation_map, sortByBlockTime_perm|exact Hnd].
Qed.

End LedgerOrder.

Section LedgerOrderTheorem.

Import Ledger.

(** X6: when the instructions have pairwise distinct block times,
    analyzeInstructions gives the same array contents and the same result for
    any order of the same instructions. *)
Theorem analyzeInstructions_order_independent l1 l2 wd tokenMap priceMap :
  Permutation l1 l2 -> NoDup (map ixBlockTime l1) ->
  analyzeInstructions l1 wd tokenMap priceMap = analyzeInstructions l2 wd tokenMap priceMap.
Proof.
  intros Hp Hnd; unfold analyzeInstructions, ledgerLoop.
  now rewrite (sortByBlockTime_perm_eq l1 l2 Hp Hnd).
Qed.

(** The hypotheses of [analyzeInstructions_order_independent] hold for an
    increase and a decrease listed in either order. *)
Lemma analyzeInstructions_order_independent_witness :
  analyzeInstructions [Fixtures.decreaseAt 40 4000000 0 2000;
                       Fixtures.increaseAt 100 10000000 0 1000]
    Fixtures.pool Fixtures.tokenMap Fixtures.priceMap
  = analyzeInstructions [Fixtures.increaseAt 100 10000000 0 1000;
                         Fixtures.decreaseAt 40 4000000 0 2000]
      Fixtures.pool Fixtures.tokenMap Fixtures.priceMap.
Proof.
  apply analyzeInstructions_order_independent.
  - apply perm_swap.
  - simpl; repeat constructor; simpl; intuition discriminate.
Defined.

End LedgerOrderTheorem.

(** * Decoding a batch of transactions *)

Section BatchGrouping.

Import Batch.

Local Open Scope list_scope.

Lemma groupByPosition_snoc l d :
  groupByPosition (l ++ [d])
  = let key := ixPosition (ix d) in
    let acc := groupByPosition l in
    let current := match jsMapGet key acc with Some l => l | None => [] end in
    jsMapSet key (current ++ [d]) acc.
Proof. unfold groupByPosition; now rewrite fold_left_app. Qed.

Lemma groupByPosition_get l : forall p,
  jsMapGet p (groupByPosition l)
  = match filter (fun d => String.eqb (ixPosition (ix d)) p) l with
    | [] => None
    | xs => Some xs
    end.
Proof.
  induction l as [|d l IH] using rev_ind; intros p; [reflexivity|].
  rewrite groupByPosition_snoc; cbv zeta.
  rewrite jsMapGet_set, filter_app; simpl.
  destruct (String.eqb (ixPosition (ix d)) p) eqn:E.
  - apply String.eqb_eq in E; subst p; rewrite IH.
    destruct (filter _ l); reflexivity.
  - rewrite app_nil_r; apply IH.
Qed.

Lemma groupByPosition_keys l :
  map fst (groupByPosition l) = jsSetOf (map (fun d => ixPosition (ix d)) l).
Proof.
  induction l as [|d l IH] using rev_ind; [reflexivity|].
  rewrite groupByPosition_snoc; cbv zeta.
  rewrite keys_jsMapSet, IH, map_app.
  unfold jsSetOf; rewrite fold_left_app; reflexivity.
Qed.

(** X7: decodeTransactions groups the decoded instructions by position: the
    entry of a position holds exactly the instructions decoded for it, in the
    order of the transactions and of the instructions within them, a position
    with no decoded instruction has no entry, and the entries are in the order
    of each position's first decoded instruction, each position once. *)
Theorem decodeTransactions_groups_by_position borshDecode args transactions :
  let groups := fst (decodeTransactions borshDecode args transactions) in
  let decoded := decodeAll borshDecode transactions in
  (forall p, jsMapGet p groups
             = match filter (fun d => String.eqb (ixPosition (ix d)) p) decoded with
               | [] => None
               | xs => Some xs
               end) /\
  map fst groups = jsSetOf (map (fun d => ixPosition (ix d)) decoded) /\
  NoDup (map fst groups).
Proof.
  cbv zeta; unfold decodeTransactions; cbn [fst].
  split; [apply groupByPosition_get|].
  rewrite groupByPosition_keys; split; [reflexivity|apply jsSetOf_NoDup].
Qed.

Lemma in_decodeAll borshDecode transactions d :
  In d (decodeAll borshDecode transactions) <->
  exists instructions j, In instructions transactions /\ (j < length instructions)%nat /\
                         Decoder.decodeTransaction borshDecode j instructions = Ok d.
Proof.
  unfold decodeAll; rewrite in_flat_map; split.
  - intros (instructions & Hin & Hd); apply in_flat_map in Hd.
    destruct Hd as (j & Hj & Hd); apply in_seq in Hj.
    destruct (Decoder.decodeTransaction borshDecode j instructions) eqn:E;
      [|contradiction].
    destruct Hd as [<-|[]]; exists instructions, j; split; [exact Hin|split; [lia|exact E]].
  - intros (instructions & j & Hin & Hj & Hd); exists instructions; split; [exact Hin|].
    apply in_flat_map; exists j; split; [apply in_seq; lia|rewrite Hd; left; reflexivity].
Qed.

End BatchGrouping.

Section DecoderShape.

Import Decoder.

Lemma wrap_ok {A : Type} (f : A -> InstructionUnion) (r : res A) u :
  Some (x <- r;; Ok (f x)) = Some (Ok u) -> exists x, r = Ok x /\ u = f x.
Proof.
  destruct r as [x|m]; cbn [res_bind]; intros H; [|discriminate H].
  exists x; split; [reflexivity|congruence].
Qed.

Lemma decodeOpenPosition_rentFee accounts data name o :
  decodeOpenPosition accounts data name = Ok o ->
  op_rentFee o = if String.eqb name "openPositionWithMetadata" then PAYABLE_RENT_LAMPORTS
                 else PAYABLE_RENT_LAMPORTS_WITHOUT_METADATA.
Proof. unfold decodeOpenPosition; intros H; peel H; injection H as <-; reflexivity. Qed.

Lemma decodeClosePosition_rent accounts c :
  decodeClosePosition accounts = Ok c -> reclaimedRent c = RECLAIMABLE_RENT_LAMPORTS.
Proof. unfold decodeClosePosition; intros H; peel H; injection H as <-; reflexivity. Qed.

(** X8: an instruction that decodeTransaction decodes is the instruction at
    the given index, belongs to the whirlpool program, is a partially decoded
    instruction whose data the borsh coder decodes, and its kind is the one
    the decoded name selects; an open carries the payable rent with or
    without metadata according to that name, and a close the reclaimable
    rent. *)
Theorem decodeTransaction_shape borshDecode index instructions d :
  decodeTransaction borshDecode index instructions = Ok d ->
  nth_error instructions index = Some (gathered d) /\
  programId (gathered d) = WHIRLPOOL_PROGRAM_ID /\
  exists accounts data name fields,
    raw (gathered d) = PartiallyDecodedInstruction accounts data /\
    borshDecode data = Some (name, fields) /\
    match ix d with
    | openPosition o =>
        (name = "openPosition" /\ op_rentFee o = PAYABLE_RENT_LAMPORTS_WITHOUT_METADATA) \/
        (name = "openPositionWithMetadata" /\ op_rentFee o = PAYABLE_RENT_LAMPORTS)
    | increaseLiquidity _ => name = "increaseLiquidity"
    | decreaseLiquidity _ => name = "decreaseLiquidity"
    | collectFees _ => name = "collectFees"
    | collectReward _ => name = "collectReward"
    | closePosition c => name = "closePosition" /\ reclaimedRent c = RECLAIMABLE_RENT_LAMPORTS
    end.
Proof.
  unfold decodeTransaction; intros H.
  destruct (nth_error instructions index) as [g|] eqn:Eg;
    cbn [require res_bind] in H; [|discriminate H].
  destruct (String.eqb (programId g) WHIRLPOOL_PROGRAM_ID) eqn:Ep;
    cbn [invariant res_bind] in H; [|discriminate H].
  destruct (raw g) as [pr parsed|accounts data] eqn:Er; [discriminate H|].
  destruct (borshDecode data) as [[name fields]|] eqn:Eb;
    cbn [require res_bind] in H; [|discriminate H].
  destruct (negb (String.eqb name "")); cbn [invariant res_bind] in H; [|discriminate H].
  destruct (decodeInstructionMap name accounts fields index instructions) as [h|] eqn:Eh;
    cbn [require res_bind] in H; [|discriminate H].
  destruct h as [u|m]; cbn [res_bind] in H; [|discriminate H].
  injection H as <-; cbn [ix gathered].
  split; [reflexivity|split; [apply String.eqb_eq; exact Ep|]].
  exists accounts, data, name, fields; split; [exact Er|split; [exact Eb|]].
  unfold decodeInstructionMap in Eh.
  destruct (String.eqb name "openPosition") eqn:E1.
  { apply String.eqb_eq in E1; subst name.
    apply wrap_ok in Eh; destruct Eh as (o & Ho & ->).
    left; split; [reflexivity|]; rewrite (decodeOpenPosition_rentFee _ _ _ _ Ho); reflexivity. }
  destruct (String.eqb name "openPositionWithMetadata") eqn:E2.
  { apply String.eqb_eq in E2; subst name.
    apply wrap_ok in Eh; destruct Eh as (o & Ho & ->).
    right; split; [reflexivity|]; rewrite (decodeOpenPosition_rentFee _ _ _ _ Ho); reflexivity. }
  destruct (String.eqb name "increaseLiquidity") eqn:E3.
  { apply String.eqb_eq in E3; subst name.
    apply wrap_ok in Eh; destruct Eh as (o & _ & ->); reflexivity. }
  destruct (String.eqb name "decreaseLiquidity") eqn:E4.
  { apply String.eqb_eq in E4; subst name.
    apply wrap_ok in Eh; destruct Eh as (o & _ & ->); reflexivity. }
  destruct (String.eqb name "collectFees") eqn:E5.
  { apply String.eqb_eq in E5; subst name.
    apply wrap_ok in Eh; destruct Eh as (o & _ & ->); reflexivity. }
  destruct (String.eqb name "collectReward") eqn:E6.
  { apply String.eqb_eq in E6; subst name.
    apply wrap_ok in Eh; destruct Eh as (o & _ & ->); reflexivity. }
  destruct (String.eqb name "closePosition") eqn:E7; [|discriminate Eh].
  apply String.eqb_eq in E7; subst name.
  apply wrap_ok in Eh; destruct Eh as (c & Hc & ->).
  split; [reflexivity|exact (decodeClosePosition_rent _ _ Hc)].
Qed.

(** The hypothesis of [decodeTransaction_shape] holds for the open
    instruction of the fixtures. *)
Lemma decodeTransaction_shape_witness :
  match decodeTransaction Fixtures.borshDecode 0 [Fixtures.openGathered] with
  | Ok d =>
      nth_error [Fixtures.openGathered] 0 = Some (gathered d) /\
      programId (gathered d) = WHIRLPOOL_PROGRAM_ID /\
      exists accounts data name fields,
        raw (gathered d) = PartiallyDecodedInstruction accounts data /\
        Fixtures.borshDecode data = Some (name, fields) /\
        match ix d with
        | openPosition o =>
            (name = "openPosition" /\ op_rentFee o = PAYABLE_RENT_LAMPORTS_WITHOUT_METADATA) \/
            (name = "openPositionWithMetadata" /\ op_rentFee o = PAYABLE_RENT_LAMPORTS)
        | increaseLiquidity _ => name = "increaseLiquidity"
        | decreaseLiquidity _ => name = "decreaseLiquidity"
        | collectFees _ => name = "collectFees"
        | collectReward _ => name = "collectReward"
        | closePosition c =>
            name = "closePosition" /\ reclaimedRent c = RECLAIMABLE_RENT_LAMPORTS
        end
  | Err _ => False
  end.
Proof.
  destruct (decodeTransaction Fixtures.borshDecode 0 [Fixtures.openGathered]) as [d|m] eqn:E.
  - exact (decodeTransaction_shape Fixtures.borshDecode 0 [Fixtures.openGathered] d E).
  - vm_compute in E; discriminate E.
Defined.

End DecoderShape.

Section DecoderOpenAccounts.

Import Decoder.

Local Open Scope list_scope.

Lemma findIndex_spec key l :
  (findIndex key l = (-1)%Z /\ ~ In key l) \/
  (exists pre post, l = pre ++ key :: post /\ ~ In key pre /\
                    findIndex key l = Z.of_nat (length pre)).
Proof.
  induction l as [|a l IH]; simpl; [left; auto|].
  destruct (String.eqb a key) eqn:E.
  - apply String.eqb_eq in E; subst a; right; exists [], l; simpl; auto.
  - assert (a <> key) as Hne by (intros ->; rewrite String.eqb_refl in E; discriminate E).
    destruct IH as [(-> & Hn)|(pre & post & -> & Hn & ->)].
    + left; split; [reflexivity|intros [->|H]; auto].
    + right; exists (a :: pre), post; simpl; split; [reflexivity|split].
      * intros [->|H]; auto.
      * destruct (Z.ltb (Z.of_nat (length pre)) 0) eqn:L; [apply Z.ltb_lt in L; lia|lia].
Qed.

Lemma accountAt_nat accounts (n : nat) :
  accountAt accounts (Z.of_nat n) = nth_error accounts n.
Proof.
  unfold accountAt; destruct (Z.ltb (Z.of_nat n) 0) eqn:L; [apply Z.ltb_lt in L; lia|].
  now rewrite Nat2Z.id.
Qed.

(** X9: decodeOpenPosition takes the whirlpool account from just before the
    first token program account: it fails with "Could not find whirlpool
    account for openPosition ix" when the token program is not among the
    accounts or comes first, and on success the whirlpool it returns is the
    account right before the first occurrence of the token program. *)
Theorem decodeOpenPosition_whirlpool_account accounts data name :
  (~ In TOKEN_PROGRAM_ID accounts ->
   decodeOpenPosition accounts data name
   = Err "Could not find whirlpool account for openPosition ix") /\
  (hd_error accounts = Some TOKEN_PROGRAM_ID ->
   decodeOpenPosition accounts data name
   = Err "Could not find whirlpool account for openPosition ix") /\
  (forall o, decodeOpenPosition accounts data name = Ok o ->
   exists pre post,
     accounts = pre ++ op_whirlpool o :: TOKEN_PROGRAM_ID :: post /\
     ~ In TOKEN_PROGRAM_ID (pre ++ [op_whirlpool o])).
Proof.
  unfold decodeOpenPosition.
  destruct (findIndex_spec TOKEN_PROGRAM_ID accounts)
    as [(-> & Hn)|(pre & post & Eacc & Hn & ->)].
  - split; [reflexivity|split].
    + intros Hhd; exfalso; apply Hn; destruct accounts; [discriminate Hhd|].
      injection Hhd as ->; left; reflexivity.
    + intros o H; discriminate H.
  - split; [intros Hin; exfalso; apply Hin; rewrite Eacc; apply in_or_app; right; left;
            reflexivity|].
    destruct pre as [|x pre'] using rev_ind.
    + split; [reflexivity|intros o H; discriminate H].
    + split.
      * intros Hhd; exfalso; apply Hn; rewrite Eacc in Hhd.
        destruct pre' as [|y pre'']; simpl in Hhd; injection Hhd as ->; simpl; auto.
      * intros o H.
        rewrite length_app in H; cbn [length] in H.
        replace (Z.of_nat (length pre' + 1) - 1)%Z with (Z.of_nat (length pre'))
          in H by lia.
        rewrite accountAt_nat, Eacc, <- app_assoc, nth_error_app2, Nat.sub_diag in H
          by lia.
        simpl in H; peel H; injection H as <-; cbn [op_whirlpool].
        exists pre', post; split; [rewrite Eacc, <- app_assoc; reflexivity|exact Hn].
Qed.

End DecoderOpenAccounts.

Section DecoderTransferErrors.

Import Decoder.

Lemma scan_err (instructions rest : list GatheredInstruction) j g e :
  forall i,
  (forall n, nth_error rest n = nth_error instructions (i + n)) ->
  (i <= j)%nat -> nth_error instructions j = Some g ->
  isTokenTransfer g = true -> transferAmount g = Err e ->
  (forall k g', (i <= k < j)%nat -> nth_error instructions k = Some g' ->
                isTokenTransfer g' = false) ->
  scanTransfers i rest = Err e.
Proof.
  induction rest as [|g0 rest IH]; intros i Hinv Hij Hj Ht Ha Hk.
  - specialize (Hinv (j - i)%nat); replace (i + (j - i))%nat with j in Hinv by lia.
    rewrite Hj in Hinv; destruct (j - i)%nat; discriminate Hinv.
  - assert (H0 : nth_error instructions i = Some g0).
    { specialize (Hinv 0%nat); rewrite Nat.add_0_r in Hinv; now rewrite <- Hinv. }
    simpl.
    destruct (Nat.eq_dec i j) as [->|Hne].
    + rewrite Hj in H0; injection H0 as <-; rewrite Ht, Ha; reflexivity.
    + rewrite (Hk i g0) by (lia || exact H0).
      apply IH; try assumption; [|lia|].
      * intros n; specialize (Hinv (S n)); simpl in Hinv; rewrite Hinv; f_equal; lia.
      * intros k g' Hk'; apply Hk; lia.
Qed.

(** X10: nextTokenTransferAmount stops at the first token transfer after the
    index: when that transfer is malformed (a missing or ill-typed info or
    amount, or an amount string without whitespace that is not an optional
    minus sign followed by digits) it fails with the error of that transfer,
    whatever well-formed transfers follow it, and so none of the liquidity,
    fee and reward decoders succeeds for the instruction at that index. *)
Theorem first_malformed_transfer_fails index instructions j g e :
  (index < j)%nat -> nth_error instructions j = Some g ->
  isTokenTransfer g = true -> transferAmount g = Err e ->
  (forall amount, transferAmountString g = Some amount -> hasJsSpace amount = false) ->
  (forall k g', (index < k < j)%nat -> nth_error instructions k = Some g' ->
                isTokenTransfer g' = false) ->
  nextTokenTransferAmount index instructions = Err e /\
  (forall accounts data,
     (forall r, decodeIncreaseLiquidity accounts data index instructions <> Ok r) /\
     (forall r, decodeDecreaseLiquidity accounts data index instructions <> Ok r) /\
     (forall r, decodeCollectFee accounts data index instructions <> Ok r) /\
     (forall r, decodeCollectReward accounts data index instructions <> Ok r)).
Proof.
  intros Hij Hj Ht Ha _ Hk.
  assert (Hn : nextTokenTransferAmount index instructions = Err e).
  { unfold nextTokenTransferAmount.
    apply (scan_err instructions _ j g e);
      [intros n; apply nth_error_skipn|lia|exact Hj|exact Ht|exact Ha|].
    intros k g' Hk'; apply Hk; lia. }
  assert (Hno : forall j' a, ~ firstTransferAfter instructions index j' a).
  { intros j' a (H1 & (g' & Hg' & Ht' & Ha') & Hk').
    destruct (Nat.lt_trichotomy j j') as [Hlt|[<-|Hlt]].
    - specialize (Hk' j g (conj Hij Hlt) Hj); congruence.
    - congruence.
    - specialize (Hk j' g' (conj H1 Hlt) Hg'); congruence. }
  split; [exact Hn|intros accounts data].
  repeat split; intros r Hr.
  - destruct (decodeIncreaseLiquidity_transfers _ _ _ _ _ Hr) as (j' & k & H1 & _).
    exact (Hno _ _ H1).
  - destruct (decodeDecreaseLiquidity_transfers _ _ _ _ _ Hr) as (j' & k & H1 & _).
    exact (Hno _ _ H1).
  - destruct (decodeCollectFee_transfers _ _ _ _ _ Hr) as (j' & k & H1 & _).
    exact (Hno _ _ H1).
  - destruct (decodeCollectReward_transfer _ _ _ _ _ Hr) as (j' & H1).
    exact (Hno _ _ H1).
Qed.

(** The hypotheses of [first_malformed_transfer_fails] hold for an increase
    followed by a transfer of amount "12x" and a well-formed transfer. *)
Lemma first_malformed_transfer_fails_witness :
  let l := [Fixtures.increaseGathered; Fixtures.transferAt "sigIncrease" "12x";
            Fixtures.transferAt "sigIncrease" "5000000"] in
  nextTokenTransferAmount 0 l = Err "Invalid character" /\
  (forall accounts data,
     (forall r, decodeIncreaseLiquidity accounts data 0 l <> Ok r) /\
     (forall r, decodeDecreaseLiquidity accounts data 0 l <> Ok r) /\
     (forall r, decodeCollectFee accounts data 0 l <> Ok r) /\
     (forall r, decodeCollectReward accounts data 0 l <> Ok r)).
Proof.
  intros l.
  apply (first_malformed_transfer_fails 0 l 1 (Fixtures.transferAt "sigIncrease" "12x")
           "Invalid character");
    [lia|reflexivity|reflexivity|reflexivity| |intros k g' Hk; lia].
  intros amount Hs; vm_compute in Hs; injection Hs as <-; reflexivity.
Defined.

End DecoderTransferErrors.

(** * Further properties of the summary builder *)

Section SummaryBatch.

Import Summary.

Local Open Scope list_scope.

Lemma flatMapPositions_flat dlq cfq crq args positionMap poolMap tokenMap priceMap positions :
  flatMapPositions dlq cfq crq args positionMap poolMap tokenMap priceMap positions
  = (flat_map (fun instructions =>
       fst (analyzeOne dlq cfq crq args positionMap poolMap tokenMap priceMap instructions))
       positions,
     flat_map (fun instructions =>
       snd (analyzeOne dlq cfq crq args positionMap poolMap tokenMap priceMap instructions))
       positions).
Proof.
  induction positions as [|x l IH]; simpl; [reflexivity|].
  rewrite IH; destruct (analyzeOne dlq cfq crq args positionMap poolMap tokenMap priceMap x);
    reflexivity.
Qed.

(** X11: analyzePositions returns, in the order of the positions, the
    summary of every position that analyzePosition analyzes and nothing for
    the others; it logs nothing unless debug is on and quiet is off, and
    then one warning per failed position that has an instruction (naming the
    position of its first instruction after the sort) followed by the count
    of summaries. *)
Theorem analyzePositions_results dlq cfq crq args positions positionMap poolMap tokenMap
    priceMap :
  let '(summaries, logs) :=
    analyzePositions dlq cfq crq args positions positionMap poolMap tokenMap priceMap in
  summaries
  = flat_map (fun instructions =>
      match snd (analyzePosition dlq cfq crq instructions positionMap poolMap tokenMap
                   priceMap) with
      | Ok s => [s]
      | Err _ => []
      end) positions /\
  logs
  = if debug args && negb (quiet args) then
      flat_map (fun instructions =>
        match analyzePosition dlq cfq crq instructions positionMap poolMap tokenMap priceMap with
        | (after, Err e) =>
            match firstPosition after with
            | Some address => [WarnLine "Failed to analyze position" address e]
            | None => []
            end
        | (_, Ok _) => []
        end) positions
      ++ [DebugLine "Analyzed instructions for" (length summaries)]
    else [].
Proof.
  unfold analyzePositions; rewrite flatMapPositions_flat.
  split.
  - apply flat_map_ext; intros instructions; unfold analyzeOne.
    destruct (analyzePosition dlq cfq crq instructions positionMap poolMap tokenMap priceMap)
      as [after [s|e]]; [reflexivity|].
    destruct (firstPosition after); reflexivity.
  - assert (Hw : forall instructions,
              snd (analyzeOne dlq cfq crq args positionMap poolMap tokenMap priceMap instructions)
              = if debug args && negb (quiet args) then
                  match analyzePosition dlq cfq crq instructions positionMap poolMap tokenMap
                          priceMap with
                  | (after, Err e) =>
                      match firstPosition after with
                      | Some address => [WarnLine "Failed to analyze position" address e]
                      | None => []
                      end
                  | (_, Ok _) => []
                  end
                else []).
    { intros instructions; unfold analyzeOne.
      destruct (analyzePosition dlq cfq crq instructions positionMap poolMap tokenMap priceMap)
        as [after [s|e]]; [destruct (debug args && negb (quiet args)); reflexivity|].
      destruct (firstPosition after); [apply warn_gated|].
      destruct (debug args && negb (quiet args)); reflexivity. }
    rewrite (flat_map_ext _ _ Hw).
    unfold debugLog, log; destruct (debug args), (quiet args); simpl;
      rewrite ?app_nil_r; try reflexivity.
    + induction positions as [|x l IH]; simpl; [reflexivity|exact IH].
    + induction positions as [|x l IH]; simpl; [reflexivity|exact IH].
    + induction positions as [|x l IH]; simpl; [reflexivity|exact IH].
Qed.



End SummaryBatch.

Section PositionValues.

Import Summary Batch.

Local Open Scope list_scope.

Lemma meetsMinimum_iff minimumValue v :
  meetsBound minimumValue (fun m => Qle_bool m v) = true <->
  (forall m, minimumValue = Some m -> ~ m == 0 -> m <= v).
Proof.
  destruct minimumValue as [m|]; simpl.
  - split.
    + intros H m' Hm Hnz; injection Hm as <-.
      apply orb_true_iff in H; destruct H as [H|H];
        [apply Qeq_bool_iff in H; contradiction|apply Qle_bool_iff, H].
    + intros H; destruct (Qeq_bool m 0) eqn:E; [reflexivity|]; simpl.
      apply Qle_bool_iff, H; [reflexivity|].
      intros Hz; apply Qeq_bool_iff in Hz; congruence.
  - split; [intros _ m H; discriminate H|reflexivity].
Qed.

Lemma meetsMaximum_iff maximumValue v :
  meetsBound maximumValue (fun m => negb (Qle_bool m v)) = true <->
  (forall m, maximumValue = Some m -> ~ m == 0 -> v < m).
Proof.
  destruct maximumValue as [m|]; simpl.
  - split.
    + intros H m' Hm Hnz; injection Hm as <-.
      apply orb_true_iff in H; destruct H as [H|H]; [apply Qeq_bool_iff in H; contradiction|].
      apply negb_true_iff in H; apply Qnot_le_lt; intros Hle.
      apply Qle_bool_iff in Hle; congruence.
    + intros H; destruct (Qeq_bool m 0) eqn:E; [reflexivity|]; simpl.
      apply negb_true_iff; destruct (Qle_bool m v) eqn:E2; [|reflexivity].
      apply Qle_bool_iff in E2; exfalso; apply (Qlt_not_le v m); [|exact E2].
      apply H; [reflexivity|]; intros Hz; apply Qeq_bool_iff in Hz; congruence.
  - split; [intros _ m H; discriminate H|reflexivity].
Qed.

Lemma bounds_iff minimumValue maximumValue v :
  meetsBound minimumValue (fun m => Qle_bool m v)
  && meetsBound maximumValue (fun m => negb (Qle_bool m v)) = true <->
  withinBounds minimumValue maximumValue v.
Proof.
  unfold withinBounds; rewrite andb_true_iff, meetsMinimum_iff, meetsMaximum_iff; tauto.
Qed.

Lemma getPositionValues_snoc dlq cfq crq args positions x minimumValue maximumValue tokenMap
    priceMap :
  getPositionValues dlq cfq crq args (positions ++ [x]) minimumValue maximumValue tokenMap
    priceMap
  = let '(values, logs) :=
      getPositionValues dlq cfq crq args positions minimumValue maximumValue tokenMap priceMap in
    let '(address, p) := x in
    match getOutstandingBalances dlq cfq crq (Some p) (getWhirlpoolData p) tokenMap priceMap with
    | Ok b =>
        if meetsBound minimumValue (fun m => Qle_bool m (b_currentValue b))
           && meetsBound maximumValue (fun m => negb (Qle_bool m (b_currentValue b)))
        then (jsMapSet address (b_currentValue b) values, logs)
        else (values, logs)
    | Err e => (values, logs ++ warn args (WarnLine "Failed to get position value for" address e))
    end.
Proof. unfold getPositionValues; now rewrite fold_left_app. Qed.

(** X13: getPositionValues records each address at most once, records an
    address exactly when one of its positions gets a current value within the
    bounds (an absent or zero bound does not apply), records for it the
    current value of such a position, and logs one warning per position whose
    value cannot be computed, only when debug is on and quiet is off. *)
Theorem getPositionValues_spec dlq cfq crq args positions minimumValue maximumValue tokenMap
    priceMap :
  let value p :=
    getOutstandingBalances dlq cfq crq (Some p) (getWhirlpoolData p) tokenMap priceMap in
  let '(values, logs) :=
    getPositionValues dlq cfq crq args positions minimumValue maximumValue tokenMap priceMap in
  NoDup (map fst values) /\
  (forall address v, jsMapGet address values = Some v ->
     exists p b, In (address, p) positions /\ value p = Ok b /\ v = b_currentValue b /\
                 withinBounds minimumValue maximumValue v) /\
  (forall address, In address (map fst values) <->
     exists p b, In (address, p) positions /\ value p = Ok b /\
                 withinBounds minimumValue maximumValue (b_currentValue b)) /\
  logs = if debug args && negb (quiet args) then
           flat_map (fun '(address, p) =>
             match value p with
             | Ok _ => []
             | Err e => [WarnLine "Failed to get position value for" address e]
             end) positions
         else [].
Proof.
  cbv zeta.
  induction positions as [|[a p] l IH] using rev_ind.
  - simpl; split; [constructor|split; [intros a v H; discriminate H|split]].
    + intros a; split; [intros []|intros (p & b & [] & _)].
    + destruct (debug args && negb (quiet args)); reflexivity.
  - rewrite getPositionValues_snoc.
    destruct (getPositionValues dlq cfq crq args l minimumValue maximumValue tokenMap priceMap)
      as [values logs].
    destruct IH as (Hnd & Hget & Hkeys & Hlogs).
    rewrite flat_map_app; cbn [flat_map]; cbv beta iota.
    destruct (getOutstandingBalances dlq cfq crq (Some p) (getWhirlpoolData p) tokenMap priceMap)
      as [b|e] eqn:Eb; cbv beta iota.
    + destruct (meetsBound minimumValue (fun m => Qle_bool m (b_currentValue b))
                && meetsBound maximumValue (fun m => negb (Qle_bool m (b_currentValue b))))
        eqn:Em; cbv beta iota.
      * apply bounds_iff in Em.
        split; [rewrite keys_jsMapSet; apply jsSetAdd_NoDup, Hnd|split; [|split]].
        -- intros a' v Hv; rewrite jsMapGet_set in Hv.
           destruct (String.eqb a a') eqn:Ea.
           ++ apply String.eqb_eq in Ea; subst a'; injection Hv as <-.
              exists p, b; split; [apply in_or_app; right; left; reflexivity|auto].
           ++ destruct (Hget a' v Hv) as (p' & b' & H1 & H2 & H3 & H4).
              exists p', b'; split; [apply in_or_app; left; exact H1|auto].
        -- intros a'; rewrite keys_jsMapSet, jsSetAdd_In, Hkeys; split.
           ++ intros [(p' & b' & H1 & H2 & H3)| ->].
              ** exists p', b'; split; [apply in_or_app; left; exact H1|auto].
              ** exists p, b; split; [apply in_or_app; right; left; reflexivity|auto].
           ++ intros (p' & b' & H1 & H2 & H3); apply in_app_iff in H1.
              destruct H1 as [H1|[H1|[]]]; [left; exists p', b'; auto|].
              injection H1 as <- <-; right; reflexivity.
        -- rewrite Hlogs, app_nil_r; reflexivity.
      * split; [exact Hnd|split; [|split]].
        -- intros a' v Hv; destruct (Hget a' v Hv) as (p' & b' & H1 & H2 & H3 & H4).
           exists p', b'; split; [apply in_or_app; left; exact H1|auto].
        -- intros a'; rewrite Hkeys; split.
           ++ intros (p' & b' & H1 & H2 & H3).
              exists p', b'; split; [apply in_or_app; left; exact H1|auto].
           ++ intros (p' & b' & H1 & H2 & H3); apply in_app_iff in H1.
              destruct H1 as [H1|[H1|[]]]; [exists p', b'; auto|].
              injection H1 as <- <-; rewrite Eb in H2; injection H2 as <-.
              apply bounds_iff in H3; congruence.
        -- rewrite Hlogs, app_nil_r; reflexivity.
    + split; [exact Hnd|split; [|split]].
      * intros a' v Hv; destruct (Hget a' v Hv) as (p' & b' & H1 & H2 & H3 & H4).
        exists p', b'; split; [apply in_or_app; left; exact H1|auto].
      * intros a'; rewrite Hkeys; split.
        -- intros (p' & b' & H1 & H2 & H3).
           exists p', b'; split; [apply in_or_app; left; exact H1|auto].
        -- intros (p' & b' & H1 & H2 & H3); apply in_app_iff in H1.
           destruct H1 as [H1|[H1|[]]]; [exists p', b'; auto|].
           injection H1 as <- <-; congruence.
      * rewrite Hlogs, warn_gated.
        destruct (debug args && negb (quiet args)); reflexivity.
Qed.

End PositionValues.

Section TokenFetchSet.

Import Batch.

(** X14: computeTokenFetchSet lists each key once, and a key is in it exactly
    when it is not the default public key and it is the SOL mint, the token A
    mint, the token B mint or a reward mint of one of the pools. *)
Theorem computeTokenFetchSet_spec pools :
  NoDup (computeTokenFetchSet pools) /\
  forall k, In k (computeTokenFetchSet pools) <->
    k <> PUBLIC_KEY_DEFAULT /\
    exists pool, In pool pools /\
      (k = NATIVE_MINT \/ k = tokenMintA pool \/ k = tokenMintB pool \/ In k (rewardInfos pool)).
Proof.
  unfold computeTokenFetchSet; split; [apply jsSetOf_NoDup|intros k].
  rewrite jsSetOf_In, filter_In, in_flat_map, negb_true_iff.
  rewrite <- (not_true_iff_false (String.eqb k PUBLIC_KEY_DEFAULT)), String.eqb_eq.
  split.
  - intros ((pool & Hp & Hk) & Hd); split; [exact Hd|exists pool; split; [exact Hp|]].
    simpl in Hk; intuition.
  - intros (Hd & pool & Hp & Hk); split; [|exact Hd].
    exists pool; split; [exact Hp|]; simpl; intuition.
Qed.

End TokenFetchSet.
